(** * Shallow embedding of two aws-cdk construct libraries

    - [UserPoolAttr]: the Cognito user-pool attribute types
      ([StandardAttrs], [StringAttr], [NumberAttr], [BooleanAttr],
      [DateTimeAttr]) with their [bind] operation.
    - [Sqs]: [packages/@aws-cdk/aws-sqs/lib/queue.ts], the [Queue] construct
      ([determineFifoProps], [_determineEncryptionProps], the constructor and
      [fromQueueAttributes]).

    TypeScript values are modelled as follows.  An optional property [p?: T]
    is an [option T].  A [number] is an integer [Z]: the properties concerned
    are lengths, counts and second amounts.  [Number.prototype.toString] is
    the plain decimal numeral on the safe integers (at most 2^53 - 1 in
    absolute value); beyond them JavaScript rounds the digits and, from
    10^21 on, prints an exponent.
    A [throw new Error(msg)] is the left injection of a sum carrying [msg]. *)

From Stdlib Require Import ZArith String Ascii List Bool Lia.
From Stdlib Require Import DecimalString DecimalZ DecimalPos.
Import ListNotations.

Local Open Scope string_scope.
Local Open Scope Z_scope.

(* ================================================================== *)
(** * JavaScript primitives used by both files *)

Module Js.

(** A thrown [Error]: only its message is observable. *)
Definition Error := string.

(** The outcome of a call that may throw. *)
Definition Result (A : Type) : Type := (Error + A)%type.

Definition isOk {A} (r : Result A) : bool :=
  match r with inr _ => true | inl _ => false end.

(** Truthiness of a [number]: [0] is falsy. *)
Definition truthyNum (n : Z) : bool := negb (n =? 0).

(** Truthiness of [n?: number]: [undefined] and [0] are falsy. *)
Definition truthyOptNum (n : option Z) : bool :=
  match n with Some v => truthyNum v | None => false end.

(** Truthiness of [b?: boolean]. *)
Definition truthyOptBool (b : option bool) : bool :=
  match b with Some v => v | None => false end.

(** Truthiness of a [string]: the empty string is falsy. *)
Definition truthyStr (s : string) : bool :=
  match s with EmptyString => false | String _ _ => true end.

(** [n.toString()] on an integer. *)
Definition toString (n : Z) : string := NilZero.string_of_int (Z.to_int n).

(** [Number.isSafeInteger(n)]: the integers on which [toString] above is
    what JavaScript prints. *)
Definition isSafeInteger (n : Z) : bool := Z.abs n <=? 9007199254740991.

(** Reading a decimal numeral back (used to state what [toString] prints). *)
Definition parseDecimal (s : string) : option Z :=
  option_map Z.of_int (NilZero.int_of_string s).

(** [s.endsWith(suffix)]. *)
Definition endsWith (s suffix : string) : bool :=
  let n := String.length s in
  let k := String.length suffix in
  (k <=? n)%nat && String.eqb (substring (n - k) k s) suffix.

(** A JavaScript value of type [any], as far as the attribute fragments
    need it. *)
#[warnings="-register-all"]
Inductive Value : Type :=
| Undefined
| Num (n : Z)
| Str (s : string)
| Obj (fields : list (string * Value)).

(** [x?.toString()] for [x?: number]. *)
Definition optToString (x : option Z) : Value :=
  match x with Some n => Str (toString n) | None => Undefined end.

(** Property lookup on an object literal ([undefined] when absent). *)
Fixpoint lookup (k : string) (fields : list (string * Value)) : Value :=
  match fields with
  | [] => Undefined
  | (k', v) :: rest => if String.eqb k k' then v else lookup k rest
  end.

Definition get (k : string) (v : Value) : Value :=
  match v with Obj fields => lookup k fields | _ => Undefined end.

End Js.

(* ================================================================== *)
(** * Cognito user-pool attributes *)

Module UserPoolAttr.
Import Js.

(** [enum StandardAttrs]. *)
Inductive StandardAttrs : Type :=
| ADDRESS | BIRTHDATE | EMAIL | FAMILY_NAME | GENDER | GIVEN_NAME | LOCALE
| MIDDLE_NAME | NAME | NICKNAME | PHONE_NUMBER | PICTURE
| PREFERRED_USERNAME | PROFILE | TIMEZONE | UPDATED_AT | WEBSITE.

(** The string value of each enum member. *)
Definition StandardAttrs_value (a : StandardAttrs) : string :=
  match a with
  | ADDRESS => "address"
  | BIRTHDATE => "birthdate"
  | EMAIL => "email"
  | FAMILY_NAME => "family_name"
  | GENDER => "gender"
  | GIVEN_NAME => "given_name"
  | LOCALE => "locale"
  | MIDDLE_NAME => "middle_name"
  | NAME => "name"
  | NICKNAME => "nickname"
  | PHONE_NUMBER => "phone_number"
  | PICTURE => "picture"
  | PREFERRED_USERNAME => "preferred_username"
  | PROFILE => "profile"
  | TIMEZONE => "zoneinfo"
  | UPDATED_AT => "updated_at"
  | WEBSITE => "website"
  end.

(** [interface CustomAttrConfig]. *)
Record CustomAttrConfig : Type := {
  attrDataType : string;
  constraints : option Value
}.

(** [interface ICustomAttr]. *)
Class ICustomAttr (A : Type) : Type := { bind : A -> CustomAttrConfig }.

(** [interface StringAttrProps]. *)
Record StringAttrProps : Type := {
  sp_minLen : option Z;
  sp_maxLen : option Z
}.

(** [class StringAttr]: its two private fields. *)
Record StringAttr : Type := {
  minLen : option Z;
  maxLen : option Z
}.

Definition minLenMessage (v : Z) : string :=
  "minLen cannot be less than 0 (value: " ++ toString v ++ ").".

Definition maxLenMessage (v : Z) : string :=
  "maxLen cannot be greater than 2048 (value: " ++ toString v ++ ").".

(** [props.minLen && props.minLen < 0]. *)
Definition minLenRejected (props : StringAttrProps) : option Z :=
  match sp_minLen props with
  | Some v => if truthyNum v && (v <? 0) then Some v else None
  | None => None
  end.

(** [props.maxLen && props.maxLen > 2048]. *)
Definition maxLenRejected (props : StringAttrProps) : option Z :=
  match sp_maxLen props with
  | Some v => if truthyNum v && (v >? 2048) then Some v else None
  | None => None
  end.

(** [new StringAttr(props)]. *)
Definition StringAttr_new (props : StringAttrProps) : Result StringAttr :=
  match minLenRejected props with
  | Some v => inl (minLenMessage v)
  | None =>
    match maxLenRejected props with
    | Some v => inl (maxLenMessage v)
    | None => inr {| minLen := sp_minLen props; maxLen := sp_maxLen props |}
    end
  end.

(** [StringAttr.bind]. *)
Definition StringAttr_bind (this : StringAttr) : CustomAttrConfig :=
  let constraints :=
    Obj [("stringAttributeConstraints",
          Obj [("minLength", optToString (minLen this));
               ("maxLength", optToString (maxLen this))])] in
  {| attrDataType := "String";
     constraints :=
       if truthyOptNum (minLen this) || truthyOptNum (maxLen this)
       then Some constraints else None |}.

(** [interface NumberAttrProps]. *)
Record NumberAttrProps : Type := {
  np_min : option Z;
  np_max : option Z
}.

(** [class NumberAttr]. *)
Record NumberAttr : Type := {
  min : option Z;
  max : option Z
}.

(** [new NumberAttr(props)]: no validation. *)
Definition NumberAttr_new (props : NumberAttrProps) : NumberAttr :=
  {| min := np_min props; max := np_max props |}.

(** [NumberAttr.bind]. *)
Definition NumberAttr_bind (this : NumberAttr) : CustomAttrConfig :=
  let constraints :=
    Obj [("numberAttributeConstraints",
          Obj [("minValue", optToString (min this));
               ("maxValue", optToString (max this))])] in
  {| attrDataType := "Number";
     constraints :=
       if truthyOptNum (min this) || truthyOptNum (max this)
       then Some constraints else None |}.

(** [class BooleanAttr] and [class DateTimeAttr] carry no state. *)
Inductive BooleanAttr : Type := BooleanAttr_new.
Inductive DateTimeAttr : Type := DateTimeAttr_new.

Definition BooleanAttr_bind (_ : BooleanAttr) : CustomAttrConfig :=
  {| attrDataType := "Boolean"; constraints := None |}.

Definition DateTimeAttr_bind (_ : DateTimeAttr) : CustomAttrConfig :=
  {| attrDataType := "DateTime"; constraints := None |}.

#[export] Instance StringAttr_ICustomAttr : ICustomAttr StringAttr :=
  {| bind := StringAttr_bind |}.
#[export] Instance NumberAttr_ICustomAttr : ICustomAttr NumberAttr :=
  {| bind := NumberAttr_bind |}.
#[export] Instance BooleanAttr_ICustomAttr : ICustomAttr BooleanAttr :=
  {| bind := BooleanAttr_bind |}.
#[export] Instance DateTimeAttr_ICustomAttr : ICustomAttr DateTimeAttr :=
  {| bind := DateTimeAttr_bind |}.

(** What a bound [x] looks like once emitted as [v]: absent when unset,
    otherwise a string, never a number; for a safe integer the string is its
    decimal numeral, which reads back as the number. *)
Definition emittedAsDecimal (v : Value) (x : option Z) : Prop :=
  match x with
  | Some n =>
    exists s, v = Str s
              /\ (isSafeInteger n = true ->
                  s = toString n /\ parseDecimal s = Some n)
  | None => v = Undefined
  end.

(** A bound counts as unset for the guard of [bind] when it is falsy. *)
Definition falsyBound (x : option Z) : Prop := x = None \/ x = Some 0.


End UserPoolAttr.

(* ================================================================== *)
(** * The SQS queue construct *)

Module Sqs.
Import Js.

(** Modelled from the spec: [Duration] of [@aws-cdk/core], which is not
    part of the sources at hand.  Durations reach the queue only through
    [toSeconds()], a unit conversion, so a duration is its amount of
    seconds. *)
Record Duration : Type := { toSeconds : Z }.

(** [kms.IKey], as far as the queue reads it. *)
Record IKey : Type := { keyArn : string }.

(** [kms.Key.fromKeyArn(scope, id, keyArn)]. *)
Definition Key_fromKeyArn (arn : string) : IKey := {| keyArn := arn |}.

(** [interface DeadLetterQueue]; of the target [IQueue] only [queueArn]
    is read. *)
Record DeadLetterQueue : Type := {
  dlq_queueArn : string;
  maxReceiveCount : Z
}.

(** [enum QueueEncryption]. *)
Inductive QueueEncryption : Type := UNENCRYPTED | KMS_MANAGED | KMS.

Definition QueueEncryption_value (e : QueueEncryption) : string :=
  match e with
  | UNENCRYPTED => "NONE"
  | KMS_MANAGED => "MANAGED"
  | KMS => "KMS"
  end.

(** [===] on enum members compares their string values. *)
Definition QueueEncryption_eqb (a b : QueueEncryption) : bool :=
  String.eqb (QueueEncryption_value a) (QueueEncryption_value b).

(** [interface QueueProps]. *)
Record QueueProps : Type := {
  queueName : option string;
  retentionPeriod : option Duration;
  deliveryDelay : option Duration;
  maxMessageSizeBytes : option Z;
  receiveMessageWaitTime : option Duration;
  visibilityTimeout : option Duration;
  deadLetterQueue : option DeadLetterQueue;
  encryption : option QueueEncryption;
  encryptionMasterKey : option IKey;
  dataKeyReuse : option Duration;
  fifo : option bool;
  contentBasedDeduplication : option bool
}.

(** [interface FifoProps]. *)
Record FifoProps : Type := {
  fifoQueue : option bool;
  fp_contentBasedDeduplication : option bool
}.

(** [interface EncryptionProps]. *)
Record EncryptionProps : Type := {
  kmsMasterKeyId : option string;
  kmsDataKeyReusePeriodSeconds : option Z
}.

(** The return type of [_determineEncryptionProps]. *)
Record EncryptionResult : Type := {
  er_encryptionProps : EncryptionProps;
  er_encryptionMasterKey : option IKey
}.

Record RedrivePolicy : Type := {
  deadLetterTargetArn : string;
  rp_maxReceiveCount : Z
}.

(** The properties handed to [new CfnQueue(...)]. *)
Record CfnQueueProps : Type := {
  cfn_queueName : option string;
  cfn_fifoQueue : option bool;
  cfn_contentBasedDeduplication : option bool;
  cfn_kmsMasterKeyId : option string;
  cfn_kmsDataKeyReusePeriodSeconds : option Z;
  cfn_redrivePolicy : option RedrivePolicy;
  cfn_delaySeconds : option Z;
  cfn_maximumMessageSize : option Z;
  cfn_messageRetentionPeriod : option Z;
  cfn_receiveMessageWaitTimeSeconds : option Z;
  cfn_visibilityTimeout : option Z
}.

(** The constructs created beneath a queue, in creation order.  A
    construct registers itself with its scope when it is created, and stays
    registered if the constructor later throws. *)
Inductive Construct : Type :=
| KmsKey (id : string) (description : string)
| CfnQueue (id : string) (props : CfnQueueProps).

Definition isKmsKey (c : Construct) : bool :=
  match c with KmsKey _ _ => true | CfnQueue _ _ => false end.

Definition isCfnQueue (c : Construct) : bool :=
  match c with CfnQueue _ _ => true | KmsKey _ _ => false end.

(** Number of key entities created beneath the queue. *)
Definition keysCreated (children : list Construct) : nat :=
  List.length (filter isKmsKey children).

(** Number of queue fragments created beneath the queue. *)
Definition fragmentsCreated (children : list Construct) : nat :=
  List.length (filter isCfnQueue children).

(** Code that runs inside the constructor: it may throw, and it may add
    children to [this]; children added before a throw remain. *)
Definition Ctor (A : Type) : Type :=
  list Construct -> Result A * list Construct.

Definition ret {A} (a : A) : Ctor A := fun st => (inr a, st).

Definition throw {A} (msg : Error) : Ctor A := fun st => (inl msg, st).

Definition bindC {A B} (m : Ctor A) (k : A -> Ctor B) : Ctor B :=
  fun st =>
    match m st with
    | (inr a, st') => k a st'
    | (inl e, st') => (inl e, st')
    end.

Definition liftR {A} (r : Result A) : Ctor A := fun st => (r, st).

Definition addChild (c : Construct) : Ctor unit :=
  fun st => (inr tt, (st ++ [c])%list).

Notation "x <- m ;; k" := (bindC m (fun x => k))
  (at level 61, m at next level, right associativity).

(** The fields of a constructed [Queue] that are computed in this file.
    ([queueArn], [queueName] and [queueUrl] are deploy-time attributes of
    the [CfnQueue] resource.) *)
Record Queue : Type := {
  q_fifo : bool;
  q_encryptionMasterKey : option IKey;
  q_resource : CfnQueueProps
}.

Definition fifoNameMessage : Error :=
  "FIFO queue names must end in '.fifo'".
Definition nonFifoNameMessage : Error :=
  "Non-FIFO queue name may not end in '.fifo'".
Definition dedupMessage : Error :=
  "Content-based deduplication can only be defined for FIFO queues".
Definition encryptionTypeMessage (e : QueueEncryption) : Error :=
  "Unexpected 'encryptionType': " ++ QueueEncryption_value e.

(** Whether a result is one of the two name/flag mismatch errors. *)
Definition isNameMismatch {A} (r : Result A) : bool :=
  match r with
  | inl msg =>
    String.eqb msg fifoNameMessage || String.eqb msg nonFifoNameMessage
  | inr _ => false
  end.

Section Environment.

(** [Token.isUnresolved] of [@aws-cdk/core]: whether a string still
    contains a late-bound token. *)
Variable isUnresolved : string -> bool.

(** [validateProps] of [./validate-props]: [Some msg] when it throws. *)
Variable validateProps : QueueProps -> option Error.

(** The key object returned by [new kms.Key(scope, id, { description })],
    given the path of [scope]. *)
Variable newKey : string -> string -> string -> IKey.

(** Lines 320-323 of [determineFifoProps]: the value of [fifoQueue]
    after the two inference steps. *)
Definition inferFifoQueue (props : QueueProps) : option bool :=
  let fifoQueue := fifo props in
  let fifoQueue :=
    match fifoQueue, queueName props with
    | None, Some name =>
      if truthyStr name && negb (isUnresolved name)
         && endsWith name ".fifo"
      then Some true else fifoQueue
    | _, _ => fifoQueue
    end in
  match fifoQueue with
  | None =>
    if truthyOptBool (contentBasedDeduplication props)
    then Some true else fifoQueue
  | Some _ => fifoQueue
  end.

(** [Queue.determineFifoProps]. *)
Definition determineFifoProps (props : QueueProps) : Result FifoProps :=
  let fifoQueue := inferFifoQueue props in
  let nameCheck : option Error :=
    match queueName props with
    | Some name =>
      if truthyOptBool fifoQueue && negb (endsWith name ".fifo")
      then Some fifoNameMessage
      else if negb (truthyOptBool fifoQueue) && endsWith name ".fifo"
      then Some nonFifoNameMessage
      else None
    | None => None
    end in
  match nameCheck with
  | Some msg => inl msg
  | None =>
    if truthyOptBool (contentBasedDeduplication props)
       && negb (truthyOptBool fifoQueue)
    then inl dedupMessage
    else inr {| fp_contentBasedDeduplication :=
                  contentBasedDeduplication props;
                fifoQueue := fifoQueue |}
  end.

(** Whether the name alone makes [fifoQueue] true (line 322). *)
Definition nameForcesFifo (props : QueueProps) : bool :=
  match queueName props with
  | Some name =>
    truthyStr name && negb (isUnresolved name) && endsWith name ".fifo"
  | None => false
  end.

(** The encryption mode after lines 278-282. *)
Definition effectiveEncryption (props : QueueProps) : QueueEncryption :=
  let encryption :=
    match encryption props with Some e => e | None => UNENCRYPTED end in
  match encryptionMasterKey props with
  | Some _ =>
    if negb (QueueEncryption_eqb encryption KMS) then KMS else encryption
  | None => encryption
  end.

(** Whether [_determineEncryptionProps] reaches [new kms.Key]. *)
Definition createsKey (props : QueueProps) : bool :=
  QueueEncryption_eqb (effectiveEncryption props) KMS
  && match encryptionMasterKey props with
     | None => true
     | Some _ => false
     end.

(** The children [_determineEncryptionProps] adds to the queue. *)
Definition keyChildren (path : string) (props : QueueProps)
  : list Construct :=
  if createsKey props then [KmsKey "Key" ("Created by " ++ path)]
  else [].

(** [_determineEncryptionProps], with [path] standing for
    [this.node.path]. *)
Definition _determineEncryptionProps (path : string) (props : QueueProps)
  : Ctor EncryptionResult :=
  let encryption := effectiveEncryption props in
  if QueueEncryption_eqb encryption UNENCRYPTED then
    ret {| er_encryptionProps :=
             {| kmsMasterKeyId := None;
                kmsDataKeyReusePeriodSeconds := None |};
           er_encryptionMasterKey := None |}
  else if QueueEncryption_eqb encryption KMS_MANAGED then
    ret {| er_encryptionProps :=
             {| kmsMasterKeyId := Some "alias/aws/sqs";
                kmsDataKeyReusePeriodSeconds :=
                  option_map toSeconds (dataKeyReuse props) |};
           er_encryptionMasterKey := None |}
  else if QueueEncryption_eqb encryption KMS then
    masterKey <-
      match encryptionMasterKey props with
      | Some k => ret k
      | None =>
        let description := "Created by " ++ path in
        _ <- addChild (KmsKey "Key" description) ;;
        ret (newKey path "Key" description)
      end ;;
    ret {| er_encryptionMasterKey := Some masterKey;
           er_encryptionProps :=
             {| kmsMasterKeyId := Some (keyArn masterKey);
                kmsDataKeyReusePeriodSeconds :=
                  option_map toSeconds (dataKeyReuse props) |} |}
  else throw (encryptionTypeMessage encryption).

(** The body of the [Queue] constructor after [super(...)].
    [this.physicalName], which the [Resource] base class derives from the
    [props.queueName] handed to [super], is represented by [props.queueName]
    itself; for an unnamed queue the base class supplies a token that
    resolves to no name, where this model has [None]. *)
Definition Queue_constructor (path : string) (props : QueueProps)
  : Ctor Queue :=
  _ <- liftR (match validateProps props with
              | Some msg => inl msg
              | None => inr tt
              end) ;;
  let redrivePolicy :=
    option_map (fun d => {| deadLetterTargetArn := dlq_queueArn d;
                            rp_maxReceiveCount := maxReceiveCount d |})
               (deadLetterQueue props) in
  enc <- _determineEncryptionProps path props ;;
  fifoProps <- liftR (determineFifoProps props) ;;
  let this_fifo := truthyOptBool (fifoQueue fifoProps) in
  let cfn :=
    {| cfn_queueName := queueName props;
       cfn_fifoQueue := fifoQueue fifoProps;
       cfn_contentBasedDeduplication :=
         fp_contentBasedDeduplication fifoProps;
       cfn_kmsMasterKeyId := kmsMasterKeyId (er_encryptionProps enc);
       cfn_kmsDataKeyReusePeriodSeconds :=
         kmsDataKeyReusePeriodSeconds (er_encryptionProps enc);
       cfn_redrivePolicy := redrivePolicy;
       cfn_delaySeconds := option_map toSeconds (deliveryDelay props);
       cfn_maximumMessageSize := maxMessageSizeBytes props;
       cfn_messageRetentionPeriod :=
         option_map toSeconds (retentionPeriod props);
       cfn_receiveMessageWaitTimeSeconds :=
         option_map toSeconds (receiveMessageWaitTime props);
       cfn_visibilityTimeout :=
         option_map toSeconds (visibilityTimeout props) |} in
  _ <- addChild (CfnQueue "Resource" cfn) ;;
  ret {| q_fifo := this_fifo;
         q_encryptionMasterKey := er_encryptionMasterKey enc;
         q_resource := cfn |}.

(** [new Queue(scope, id, props)]: the constructor runs on a construct
    that has no children yet. *)
Definition Queue_new (path : string) (props : QueueProps)
  : Result Queue * list Construct :=
  Queue_constructor path props [].

End Environment.

(** The deployment context read by [fromQueueAttributes]:
    [stack.region], [stack.urlSuffix] and [stack.account]. *)
Record Stack : Type := {
  region : string;
  urlSuffix : string;
  account : string
}.

(** The components of a parsed ARN. *)
Record ArnComponents : Type := {
  arn_partition : string;
  arn_service : string;
  arn_region : string;
  arn_account : string;
  resource : string
}.

(** [interface QueueAttributes] of [./queue-base], as it is read here. *)
Record QueueAttributes : Type := {
  qa_queueArn : string;
  qa_queueUrl : option string;
  qa_queueName : option string;
  qa_keyArn : option string
}.

(** The local class [Import] of [fromQueueAttributes]. *)
Record ImportedQueue : Type := {
  imp_queueArn : string;
  imp_queueUrl : string;
  imp_queueName : string;
  imp_encryptionMasterKey : option IKey;
  imp_fifo : bool;
  imp_autoCreatePolicy : bool
}.

(** The left operand of [a || b] on an optional string, when truthy. *)
Definition truthyValue (s : option string) : option string :=
  match s with
  | Some v => if truthyStr v then Some v else None
  | None => None
  end.

Section Importing.

(** [stack.parseArn] of [@aws-cdk/core]; it throws on a malformed ARN. *)
Variable parseArn : string -> Result ArnComponents.

(** [Queue.fromQueueAttributes]. *)
Definition fromQueueAttributes (stack : Stack) (attrs : QueueAttributes)
  : Result ImportedQueue :=
  let queueName : Result string :=
    match truthyValue (qa_queueName attrs) with
    | Some n => inr n
    | None =>
      match parseArn (qa_queueArn attrs) with
      | inr c => inr (resource c)
      | inl e => inl e
      end
    end in
  match queueName with
  | inl e => inl e
  | inr queueName =>
    let queueUrl :=
      match truthyValue (qa_queueUrl attrs) with
      | Some u => u
      | None =>
        "https://sqs." ++ region stack ++ "." ++ urlSuffix stack
          ++ "/" ++ account stack ++ "/" ++ queueName
      end in
    inr {| imp_queueArn := qa_queueArn attrs;
           imp_queueUrl := queueUrl;
           imp_queueName := queueName;
           imp_encryptionMasterKey :=
             option_map Key_fromKeyArn (truthyValue (qa_keyArn attrs));
           imp_fifo := if endsWith queueName ".fifo" then true else false;
           imp_autoCreatePolicy := false |}
  end.

(** [Queue.fromQueueArn]. *)
Definition fromQueueArn (stack : Stack) (queueArn : string)
  : Result ImportedQueue :=
  fromQueueAttributes stack
    {| qa_queueArn := queueArn; qa_queueUrl := None;
       qa_queueName := None; qa_keyArn := None |}.

End Importing.

(** ** A concrete environment, to run the model *)

Fixpoint splitOn (sep : ascii) (s : string) : list string :=
  match s with
  | EmptyString => [EmptyString]
  | String c rest =>
    if Ascii.eqb c sep then EmptyString :: splitOn sep rest
    else match splitOn sep rest with
         | [] => [String c EmptyString]
         | w :: ws => String c w :: ws
         end
  end.

(** Modelled from the spec: [Stack.parseArn] of [@aws-cdk/core], which is
    not part of the sources at hand.  An ARN reads
    [arn:partition:service:region:account:resource]; the resource segment
    is its sixth colon-separated component. *)
Definition parseArnModel (arn : string) : Result ArnComponents :=
  match splitOn ":" arn with
  | _ :: p :: s :: r :: a :: sixth :: _ =>
    inr {| arn_partition := p; arn_service := s; arn_region := r;
           arn_account := a; resource := sixth |}
  | _ => inl ("ARNs must have at least 6 components: " ++ arn)
  end.

(** Sample inputs. *)
Definition exampleArn : string :=
  "arn:aws:sqs:us-east-1:123456789012:myqueue".
Definition placeholderName : string := "${Token[TOKEN.10]}".
Definition externalKey : IKey :=
  {| keyArn := "arn:aws:kms:us-east-1:123456789012:key/1234abcd" |}.

(** Property sets that leave everything unset but the name, the two FIFO
    flags, the encryption mode and the external key. *)
Definition fifoSpec (name : option string) (fifoFlag dedup : option bool)
  : QueueProps :=
  {| queueName := name; retentionPeriod := None; deliveryDelay := None;
     maxMessageSizeBytes := None; receiveMessageWaitTime := None;
     visibilityTimeout := None; deadLetterQueue := None;
     encryption := None; encryptionMasterKey := None; dataKeyReuse := None;
     fifo := fifoFlag; contentBasedDeduplication := dedup |}.

Definition withEncryption (mode : option QueueEncryption)
    (key : option IKey) (props : QueueProps) : QueueProps :=
  {| queueName := queueName props;
     retentionPeriod := retentionPeriod props;
     deliveryDelay := deliveryDelay props;
     maxMessageSizeBytes := maxMessageSizeBytes props;
     receiveMessageWaitTime := receiveMessageWaitTime props;
     visibilityTimeout := visibilityTimeout props;
     deadLetterQueue := deadLetterQueue props;
     encryption := mode; encryptionMasterKey := key;
     dataKeyReuse := dataKeyReuse props;
     fifo := fifo props;
     contentBasedDeduplication := contentBasedDeduplication props |}.

(** An instance of [Token.isUnresolved]: a string is late-bound when it
    contains the marker that opens a string-encoded token. *)
Definition containsToken (s : string) : bool :=
  match String.index 0 "${Token[" s with Some _ => true | None => false end.

(** An instance of [validateProps] that accepts every property set. *)
Definition acceptProps (_ : QueueProps) : option Error := None.

(** An instance of [new kms.Key]: the ARN of a created key is a token
    naming the key construct. *)
Definition tokenKey (path id description : string) : IKey :=
  {| keyArn := "${Token[" ++ path ++ "/" ++ id ++ ".Arn]}" |}.

Definition placeholderFifoName : string := "${Token[TOKEN.10]}.fifo".

(** An instance of [Token.isUnresolved] for which every string is concrete. *)
Definition neverUnresolved (_ : string) : bool := false.

Definition withDataKeyReuse (reuse : option Duration) (props : QueueProps)
  : QueueProps :=
  {| queueName := queueName props;
     retentionPeriod := retentionPeriod props;
     deliveryDelay := deliveryDelay props;
     maxMessageSizeBytes := maxMessageSizeBytes props;
     receiveMessageWaitTime := receiveMessageWaitTime props;
     visibilityTimeout := visibilityTimeout props;
     deadLetterQueue := deadLetterQueue props;
     encryption := encryption props;
     encryptionMasterKey := encryptionMasterKey props;
     dataKeyReuse := reuse;
     fifo := fifo props;
     contentBasedDeduplication := contentBasedDeduplication props |}.

(** A property set with every delivery setting and a dead-letter queue. *)
Definition tunedProps : QueueProps :=
  {| queueName := Some "jobs";
     retentionPeriod := Some {| toSeconds := 345600 |};
     deliveryDelay := Some {| toSeconds := 5 |};
     maxMessageSizeBytes := Some 1024;
     receiveMessageWaitTime := Some {| toSeconds := 20 |};
     visibilityTimeout := Some {| toSeconds := 30 |};
     deadLetterQueue :=
       Some {| dlq_queueArn := "arn:aws:sqs:us-east-1:123456789012:dead";
               maxReceiveCount := 3 |};
     encryption := None; encryptionMasterKey := None; dataKeyReuse := None;
     fifo := None; contentBasedDeduplication := None |}.

End Sqs.

(* ================================================================== *)
(** * Properties of the user-pool attributes *)

Module UserPoolAttrSpec.
Import Js UserPoolAttr.

Lemma to_int_proper (n : Z) :
  Z.to_int n <> Decimal.Pos Decimal.Nil /\
  Z.to_int n <> Decimal.Neg Decimal.Nil.
Proof.
  destruct n as [|p|p]; simpl; split; try discriminate;
    intros [= H]; exact (Unsigned.to_uint_nonnil p H).
Qed.

(** [toString] prints a numeral that reads back as the same integer. *)
Lemma parseDecimal_toString (n : Z) : parseDecimal (toString n) = Some n.
Proof.
  unfold parseDecimal, toString.
  destruct (to_int_proper n) as [Hp Hn].
  rewrite NilZero.isi by assumption.
  simpl. now rewrite DecimalZ.of_to.
Qed.

Lemma emittedAsDecimal_optToString (x : option Z) :
  emittedAsDecimal (optToString x) x.
Proof.
  destruct x as [n|]; simpl; [|reflexivity].
  exists (toString n). split; [reflexivity|].
  intros _. split; [reflexivity|apply parseDecimal_toString].
Qed.

Lemma truthyNum_neg (v : Z) : v < 0 -> truthyNum v = true.
Proof. unfold truthyNum. intros H. destruct (Z.eqb_spec v 0); [lia|easy]. Qed.

Lemma truthyNum_big (v : Z) : 2048 < v -> truthyNum v = true.
Proof. unfold truthyNum. intros H. destruct (Z.eqb_spec v 0); [lia|easy]. Qed.

Lemma minLenRejected_spec (props : StringAttrProps) :
  match minLenRejected props with
  | Some v => sp_minLen props = Some v /\ v < 0
  | None => match sp_minLen props with Some v => 0 <= v | None => True end
  end.
Proof.
  unfold minLenRejected.
  destruct (sp_minLen props) as [v|]; [|exact I].
  destruct (Z.ltb_spec v 0) as [Hlt|Hge].
  - rewrite truthyNum_neg by assumption. simpl. auto.
  - rewrite andb_false_r. assumption.
Qed.

Lemma maxLenRejected_spec (props : StringAttrProps) :
  match maxLenRejected props with
  | Some v => sp_maxLen props = Some v /\ 2048 < v
  | None => match sp_maxLen props with Some v => v <= 2048 | None => True end
  end.
Proof.
  unfold maxLenRejected.
  destruct (sp_maxLen props) as [v|]; [|exact I].
  rewrite Z.gtb_ltb.
  destruct (Z.ltb_spec 2048 v) as [Hlt|Hge].
  - rewrite truthyNum_big by assumption. simpl. auto.
  - rewrite andb_false_r. assumption.
Qed.

(** C5.  [new StringAttr(props)] throws exactly when [minLen < 0] or
    [maxLen > 2048], and the message then cites the offending value (the
    [minLen] one first when both are out of range); for every other
    combination of bounds, omitted ones included, it returns the attribute
    holding the bounds as given. *)
Theorem StringAttr_new_rejects_exactly (props : StringAttrProps) :
  match StringAttr_new props with
  | inl msg =>
    (exists v, sp_minLen props = Some v /\ v < 0 /\ msg = minLenMessage v)
    \/ (exists v, sp_maxLen props = Some v /\ 2048 < v
                  /\ msg = maxLenMessage v)
  | inr attr =>
    match sp_minLen props with Some v => 0 <= v | None => True end
    /\ match sp_maxLen props with Some v => v <= 2048 | None => True end
    /\ attr = {| minLen := sp_minLen props; maxLen := sp_maxLen props |}
  end.
Proof.
  unfold StringAttr_new.
  pose proof (minLenRejected_spec props) as Hmin.
  pose proof (maxLenRejected_spec props) as Hmax.
  destruct (minLenRejected props) as [v|].
  - left. exists v. tauto.
  - destruct (maxLenRejected props) as [w|].
    + right. exists w. tauto.
    + auto.
Qed.

Lemma truthyOptNum_false (x : option Z) :
  truthyOptNum x = false <-> falsyBound x.
Proof.
  unfold falsyBound, truthyOptNum, truthyNum.
  destruct x as [v|]; [|intuition].
  destruct (Z.eqb_spec v 0) as [->|Hne]; simpl.
  - intuition.
  - split; [discriminate|]. intros [H|H]; [discriminate|congruence].
Qed.

(** C6 (evaluation at the failing input).  [new StringAttr({ minLen: 0 })]
    is accepted, and its [bind()] returns [attrDataType] ["String"] with
    the constraints omitted although a bound was set.  In general the
    constraints are omitted exactly when both bounds are falsy, that is
    unset or [0]; when they are present they hold the bounds as set. *)
Theorem StringAttr_bind_drops_zero_bound :
  StringAttr_new {| sp_minLen := Some 0; sp_maxLen := None |}
    = inr {| minLen := Some 0; maxLen := None |}
  /\ bind {| minLen := Some 0; maxLen := None |}
     = {| attrDataType := "String"; constraints := None |}
  /\ forall this : StringAttr,
       attrDataType (bind this) = "String"
       /\ (constraints (bind this) = None
           <-> falsyBound (minLen this) /\ falsyBound (maxLen this))
       /\ match constraints (bind this) with
          | Some c =>
            c = Obj [("stringAttributeConstraints",
                      Obj [("minLength", optToString (minLen this));
                           ("maxLength", optToString (maxLen this))])]
          | None => True
          end.
Proof.
  split; [reflexivity|]. split; [reflexivity|].
  intros this. simpl. split; [reflexivity|].
  rewrite <- !truthyOptNum_false.
  destruct (truthyOptNum (minLen this)), (truthyOptNum (maxLen this));
    simpl; intuition discriminate.
Qed.

(** C10.  [StringAttr.bind] and [NumberAttr.bind] emit a constraints object
    as soon as one bound is truthy, and in every constraints object they
    emit each bound is either absent (when unset) or a string, never a
    number: for a safe integer, the string holding the decimal numeral of
    the configured number. *)
Theorem bind_emits_bounds_as_decimal_strings
    (s : StringAttr) (n : NumberAttr) :
  (truthyOptNum (minLen s) || truthyOptNum (maxLen s) = true ->
   exists c, constraints (bind s) = Some c)
  /\ (forall c, constraints (bind s) = Some c ->
      let inner := get "stringAttributeConstraints" c in
      emittedAsDecimal (get "minLength" inner) (minLen s)
      /\ emittedAsDecimal (get "maxLength" inner) (maxLen s))
  /\ (truthyOptNum (min n) || truthyOptNum (max n) = true ->
      exists c, constraints (bind n) = Some c)
  /\ (forall c, constraints (bind n) = Some c ->
      let inner := get "numberAttributeConstraints" c in
      emittedAsDecimal (get "minValue" inner) (min n)
      /\ emittedAsDecimal (get "maxValue" inner) (max n)).
Proof.
  split; [|split; [|split]]; simpl.
  - intros ->. eexists. reflexivity.
  - intros c.
    destruct (truthyOptNum (minLen s) || truthyOptNum (maxLen s));
      [|discriminate].
    intros [= <-]. simpl. split; apply emittedAsDecimal_optToString.
  - intros ->. eexists. reflexivity.
  - intros c.
    destruct (truthyOptNum (min n) || truthyOptNum (max n)); [|discriminate].
    intros [= <-]. simpl. split; apply emittedAsDecimal_optToString.
Qed.

(** C10 at [new StringAttr({ minLen: 1, maxLen: 2048 })] and
    [new NumberAttr({ min: 0, max: 100 })]. *)
Lemma bind_emits_bounds_as_decimal_strings_witness :
  (exists c, constraints (bind {| minLen := Some 1; maxLen := Some 2048 |})
             = Some c)
  /\ emittedAsDecimal (Str "1") (Some 1)
  /\ emittedAsDecimal (Str "2048") (Some 2048)
  /\ (exists c, constraints (bind {| min := Some 0; max := Some 100 |})
                = Some c)
  /\ emittedAsDecimal (Str "0") (Some 0)
  /\ emittedAsDecimal (Str "100") (Some 100).
Proof.
  destruct (bind_emits_bounds_as_decimal_strings
              {| minLen := Some 1; maxLen := Some 2048 |}
              {| min := Some 0; max := Some 100 |})
    as (Hs & Hsc & Hn & Hnc).
  split; [exact (Hs eq_refl)|].
  split; [exact (proj1 (Hsc _ eq_refl))|].
  split; [exact (proj2 (Hsc _ eq_refl))|].
  split; [exact (Hn eq_refl)|].
  split; [exact (proj1 (Hnc _ eq_refl))|exact (proj2 (Hnc _ eq_refl))].
Defined.

End UserPoolAttrSpec.

(* ================================================================== *)
(** * Properties of the queue construct *)

Module SqsSpec.
Import Js Sqs.

Lemma endsWith_fifo_truthy (name : string) :
  endsWith name ".fifo" = true -> truthyStr name = true.
Proof. destruct name; [discriminate|reflexivity]. Qed.

Section Environment.

Variable isUnresolved : string -> bool.
Variable validateProps : QueueProps -> option Error.
Variable newKey : string -> string -> string -> IKey.

Abbreviation inferFifo := (inferFifoQueue isUnresolved).
Abbreviation determineFifo := (determineFifoProps isUnresolved).
Abbreviation newQueue := (Queue_new isUnresolved validateProps newKey).

(** ** FIFO derivation *)

(** The four inference steps of lines 320-323, in order. *)
Lemma inferFifoQueue_steps (props : QueueProps) :
  inferFifo props =
  match fifo props with
  | Some b => Some b
  | None =>
    if nameForcesFifo isUnresolved props then Some true
    else if truthyOptBool (contentBasedDeduplication props)
         then Some true else None
  end.
Proof.
  unfold inferFifoQueue, nameForcesFifo.
  destruct (fifo props) as [b|]; [now destruct (queueName props)|].
  destruct (queueName props) as [name|]; [|reflexivity].
  now destruct (truthyStr name && negb (isUnresolved name)
                && endsWith name ".fifo").
Qed.

(** [determineFifoProps] on a property set that has a name. *)
Lemma determineFifoProps_named (props : QueueProps) (name : string) :
  queueName props = Some name ->
  determineFifo props =
  let fifoQueue := inferFifo props in
  if truthyOptBool fifoQueue && negb (endsWith name ".fifo")
  then inl fifoNameMessage
  else if negb (truthyOptBool fifoQueue) && endsWith name ".fifo"
  then inl nonFifoNameMessage
  else if truthyOptBool (contentBasedDeduplication props)
          && negb (truthyOptBool fifoQueue)
  then inl dedupMessage
  else inr {| fp_contentBasedDeduplication :=
                contentBasedDeduplication props;
              fifoQueue := fifoQueue |}.
Proof.
  intros Hname. unfold determineFifoProps. rewrite Hname. cbv zeta.
  destruct (truthyOptBool (inferFifo props) && negb (endsWith name ".fifo"));
    [reflexivity|].
  now destruct (negb (truthyOptBool (inferFifo props))
                && endsWith name ".fifo").
Qed.

(** [determineFifoProps] on a property set without a name. *)
Lemma determineFifoProps_unnamed (props : QueueProps) :
  queueName props = None ->
  determineFifo props =
  let fifoQueue := inferFifo props in
  if truthyOptBool (contentBasedDeduplication props)
     && negb (truthyOptBool fifoQueue)
  then inl dedupMessage
  else inr {| fp_contentBasedDeduplication :=
                contentBasedDeduplication props;
              fifoQueue := fifoQueue |}.
Proof. intros Hname. unfold determineFifoProps. now rewrite Hname. Qed.

(** ** Encryption derivation *)

Lemma effectiveEncryption_external_key (props : QueueProps) (k : IKey) :
  encryptionMasterKey props = Some k -> effectiveEncryption props = KMS.
Proof.
  intros Hk. unfold effectiveEncryption. rewrite Hk.
  now destruct (encryption props) as [[]|].
Qed.

(** The encryption derivation never throws; the only child it may add
    is the created key. *)
Lemma _determineEncryptionProps_total
    (path : string) (props : QueueProps) (st : list Construct) :
  exists r,
    _determineEncryptionProps newKey path props st
    = (inr r, (st ++ keyChildren path props)%list)
    /\ kmsDataKeyReusePeriodSeconds (er_encryptionProps r)
       = match effectiveEncryption props with
         | UNENCRYPTED => None
         | _ => option_map toSeconds (dataKeyReuse props)
         end.
Proof.
  unfold _determineEncryptionProps, keyChildren, createsKey.
  destruct (effectiveEncryption props); simpl.
  - rewrite app_nil_r. eexists; split; reflexivity.
  - rewrite app_nil_r. eexists; split; reflexivity.
  - destruct (encryptionMasterKey props) as [k|]; simpl.
    + rewrite app_nil_r. eexists; split; reflexivity.
    + unfold bindC, addChild, ret. eexists; split; reflexivity.
Qed.

(** ** The constructor *)

Lemma Queue_new_invalid (path : string) (props : QueueProps) (e : Error) :
  validateProps props = Some e -> newQueue path props = (inl e, []).
Proof.
  intros Hv. unfold Queue_new, Queue_constructor, bindC, liftR.
  now rewrite Hv.
Qed.

Lemma Queue_new_fifo_error (path : string) (props : QueueProps) (e : Error) :
  validateProps props = None ->
  determineFifo props = inl e ->
  newQueue path props = (inl e, keyChildren path props).
Proof.
  intros Hv Hf. unfold Queue_new, Queue_constructor, bindC, liftR.
  rewrite Hv.
  destruct (_determineEncryptionProps_total path props []) as (r & -> & _).
  now rewrite Hf.
Qed.

Lemma Queue_new_ok (path : string) (props : QueueProps) (fp : FifoProps) :
  validateProps props = None ->
  determineFifo props = inr fp ->
  exists q r,
    _determineEncryptionProps newKey path props []
    = (inr r, keyChildren path props)
    /\ newQueue path props
       = (inr q, (keyChildren path props
                  ++ [CfnQueue "Resource" (q_resource q)])%list)
    /\ q_fifo q = truthyOptBool (fifoQueue fp)
    /\ q_encryptionMasterKey q = er_encryptionMasterKey r
    /\ cfn_fifoQueue (q_resource q) = fifoQueue fp
    /\ cfn_contentBasedDeduplication (q_resource q)
       = fp_contentBasedDeduplication fp
    /\ cfn_kmsMasterKeyId (q_resource q)
       = kmsMasterKeyId (er_encryptionProps r)
    /\ cfn_kmsDataKeyReusePeriodSeconds (q_resource q)
       = kmsDataKeyReusePeriodSeconds (er_encryptionProps r).
Proof.
  intros Hv Hf. unfold Queue_new, Queue_constructor, bindC, liftR.
  rewrite Hv.
  destruct (_determineEncryptionProps_total path props []) as (r & Hr & _).
  simpl app in Hr. rewrite Hr, Hf. unfold addChild, ret.
  match goal with
  | |- context [(inr ?built, _) = (inr _, _)] => exists built, r
  end.
  split; [reflexivity|]. split; [reflexivity|].
  simpl. repeat split; reflexivity.
Qed.

(** The constructor fails exactly when [validateProps] or
    [determineFifoProps] throws. *)
Lemma Queue_new_fails (path : string) (props : QueueProps) (e : Error) :
  determineFifo props = inl e ->
  isOk (fst (newQueue path props)) = false.
Proof.
  intros Hf. destruct (validateProps props) as [e'|] eqn:Hv.
  - now rewrite (Queue_new_invalid path props e').
  - now rewrite (Queue_new_fifo_error path props e).
Qed.

Lemma Queue_new_mismatch (path : string) (props : QueueProps) :
  validateProps props = None ->
  isNameMismatch (fst (newQueue path props))
  = isNameMismatch (determineFifo props).
Proof.
  intros Hv. destruct (determineFifo props) as [e|fp] eqn:Hf.
  - now rewrite (Queue_new_fifo_error path props e).
  - destruct (Queue_new_ok path props fp Hv Hf) as (q & r & _ & -> & _).
    reflexivity.
Qed.

(** The cross-check of lines 326-333 looks at the name only as a string:
    it throws exactly when the final flag and the suffix disagree. *)
Lemma name_mismatch_iff (props : QueueProps) (name : string) :
  queueName props = Some name ->
  isNameMismatch (determineFifo props) = true
  <-> truthyOptBool (inferFifo props) <> endsWith name ".fifo".
Proof.
  intros Hname. rewrite (determineFifoProps_named props name Hname).
  cbv zeta.
  destruct (truthyOptBool (inferFifo props)), (endsWith name ".fifo");
    simpl; try (split; [discriminate|congruence]);
    try (split; [congruence|reflexivity]).
  - rewrite andb_false_r. simpl. split; [discriminate|congruence].
  - destruct (truthyOptBool (contentBasedDeduplication props)); simpl;
      (split; [discriminate|congruence]).
Qed.

(** C1.  When the name is a concrete string ending in ['.fifo'] and
    [fifo] is explicitly [false], [determineFifoProps] throws its
    name-mismatch error and the constructor fails.  For a concrete name,
    a name-mismatch error is raised if and only if the final value of
    [fifoQueue] disagrees with whether the name ends in ['.fifo']; the
    same holds of the constructor once [validateProps] has accepted the
    properties. *)
Theorem fifo_flag_must_agree_with_name
    (path : string) (props : QueueProps) (name : string) :
  queueName props = Some name ->
  isUnresolved name = false ->
  (endsWith name ".fifo" = true -> fifo props = Some false ->
   determineFifo props = inl nonFifoNameMessage
   /\ isOk (fst (newQueue path props)) = false)
  /\ (isNameMismatch (determineFifo props) = true
      <-> truthyOptBool (inferFifo props) <> endsWith name ".fifo")
  /\ (validateProps props = None ->
      (isNameMismatch (fst (newQueue path props)) = true
       <-> truthyOptBool (inferFifo props) <> endsWith name ".fifo")).
Proof.
  intros Hname _. split; [|split].
  - intros Hends Hfifo.
    assert (determineFifo props = inl nonFifoNameMessage) as Herr.
    { rewrite (determineFifoProps_named props name Hname).
      rewrite inferFifoQueue_steps, Hfifo, Hends. reflexivity. }
    split; [exact Herr|]. exact (Queue_new_fails path props _ Herr).
  - exact (name_mismatch_iff props name Hname).
  - intros Hv. rewrite (Queue_new_mismatch path props Hv).
    exact (name_mismatch_iff props name Hname).
Qed.

(** C2.  When the name is defined, concrete and ends in ['.fifo'] while
    [fifo] is unset, [determineFifoProps] returns with [fifoQueue] true;
    the constructor then succeeds (once [validateProps] has accepted the
    properties) with [fifo] true on the queue and in the fragment. *)
Theorem fifo_inferred_from_name
    (path : string) (props : QueueProps) (name : string) :
  queueName props = Some name ->
  isUnresolved name = false ->
  endsWith name ".fifo" = true ->
  fifo props = None ->
  determineFifo props
  = inr {| fifoQueue := Some true;
           fp_contentBasedDeduplication :=
             contentBasedDeduplication props |}
  /\ (validateProps props = None ->
      exists q children,
        newQueue path props = (inr q, children)
        /\ q_fifo q = true
        /\ cfn_fifoQueue (q_resource q) = Some true).
Proof.
  intros Hname Hconcrete Hends Hfifo.
  assert (inferFifo props = Some true) as Hinfer.
  { rewrite inferFifoQueue_steps, Hfifo. unfold nameForcesFifo.
    now rewrite Hname, (endsWith_fifo_truthy name Hends), Hconcrete, Hends. }
  assert (determineFifo props
          = inr {| fifoQueue := Some true;
                   fp_contentBasedDeduplication :=
                     contentBasedDeduplication props |}) as Hok.
  { rewrite (determineFifoProps_named props name Hname).
    rewrite Hinfer, Hends. simpl. now rewrite andb_false_r. }
  split; [exact Hok|].
  intros Hv.
  destruct (Queue_new_ok path props _ Hv Hok)
    as (q & r & _ & Hq & Hfifo' & _ & Hcfn & _).
  exists q. eexists. split; [exact Hq|]. split; assumption.
Qed.

(** C3 (amended).  With [contentBasedDeduplication] true: an explicit
    [fifo: false] always makes [determineFifoProps] throw, and the
    constructor fail.  With [fifo] unset, [fifoQueue] is inferred true from
    the deduplication flag: with no name [determineFifoProps] returns
    [fifoQueue] true and the constructor succeeds (once [validateProps] has
    accepted the properties), and with a concrete name that does not end in
    ['.fifo'] it throws. *)
Theorem dedup_infers_or_requires_fifo
    (path : string) (props : QueueProps) :
  contentBasedDeduplication props = Some true ->
  (fifo props = Some false ->
   (determineFifo props = inl dedupMessage
    \/ determineFifo props = inl nonFifoNameMessage)
   /\ isOk (fst (newQueue path props)) = false)
  /\ (fifo props = None -> queueName props = None ->
      determineFifo props
      = inr {| fifoQueue := Some true;
               fp_contentBasedDeduplication := Some true |}
      /\ (validateProps props = None ->
          exists q children,
            newQueue path props = (inr q, children)
            /\ q_fifo q = true
            /\ cfn_fifoQueue (q_resource q) = Some true
            /\ cfn_contentBasedDeduplication (q_resource q) = Some true))
  /\ (fifo props = None ->
      forall name,
        queueName props = Some name ->
        isUnresolved name = false ->
        endsWith name ".fifo" = false ->
        determineFifo props = inl fifoNameMessage
        /\ isOk (fst (newQueue path props)) = false).
Proof.
  intros Hdedup. split; [|split].
  - intros Hfifo.
    assert (determineFifo props = inl dedupMessage
            \/ determineFifo props = inl nonFifoNameMessage) as Herr.
    { destruct (queueName props) as [name|] eqn:Hname.
      - rewrite (determineFifoProps_named props name Hname).
        rewrite inferFifoQueue_steps, Hfifo, Hdedup. simpl.
        destruct (endsWith name ".fifo"); auto.
      - rewrite (determineFifoProps_unnamed props Hname).
        rewrite inferFifoQueue_steps, Hfifo, Hdedup. auto. }
    split; [exact Herr|].
    destruct Herr as [Herr|Herr];
      exact (Queue_new_fails path props _ Herr).
  - intros Hfifo Hname.
    assert (determineFifo props
            = inr {| fifoQueue := Some true;
                     fp_contentBasedDeduplication := Some true |}) as Hok.
    { rewrite (determineFifoProps_unnamed props Hname).
      rewrite inferFifoQueue_steps, Hfifo. unfold nameForcesFifo.
      now rewrite Hname, Hdedup. }
    split; [exact Hok|]. intros Hv.
    destruct (Queue_new_ok path props _ Hv Hok)
      as (q & r & _ & Hq & Hqf & _ & Hcfn & Hcbd & _).
    exists q. eexists. split; [exact Hq|].
    split; [exact Hqf|]. split; [exact Hcfn|exact Hcbd].
  - intros Hfifo name Hname _ Hends.
    assert (determineFifo props = inl fifoNameMessage) as Herr.
    { rewrite (determineFifoProps_named props name Hname).
      rewrite inferFifoQueue_steps, Hfifo. unfold nameForcesFifo.
      rewrite Hname, Hends, Hdedup.
      now rewrite andb_false_r. }
    split; [exact Herr|]. exact (Queue_new_fails path props _ Herr).
Qed.

(** C4 (evaluation at the failing inputs).  A late-bound name is still
    cross-checked as the string it is: the name-mismatch error is raised
    whenever the final [fifoQueue] disagrees with the suffix of the
    placeholder.  So [fifo: true] with a placeholder that does not end
    in ['.fifo'] throws, and so does a placeholder ending in ['.fifo']
    with neither [fifo] nor content-based deduplication set. *)
Theorem unresolved_name_is_still_checked
    (path : string) (props : QueueProps) (name : string) :
  queueName props = Some name ->
  isUnresolved name = true ->
  (isNameMismatch (determineFifo props) = true
   <-> truthyOptBool (inferFifo props) <> endsWith name ".fifo")
  /\ (fifo props = Some true -> endsWith name ".fifo" = false ->
      determineFifo props = inl fifoNameMessage
      /\ isOk (fst (newQueue path props)) = false)
  /\ (fifo props = None -> contentBasedDeduplication props = None ->
      endsWith name ".fifo" = true ->
      determineFifo props = inl nonFifoNameMessage
      /\ isOk (fst (newQueue path props)) = false).
Proof.
  intros Hname Hlate. split; [|split].
  - exact (name_mismatch_iff props name Hname).
  - intros Hfifo Hends.
    assert (determineFifo props = inl fifoNameMessage) as Herr.
    { rewrite (determineFifoProps_named props name Hname).
      now rewrite inferFifoQueue_steps, Hfifo, Hends. }
    split; [exact Herr|]. exact (Queue_new_fails path props _ Herr).
  - intros Hfifo Hdedup Hends.
    assert (determineFifo props = inl nonFifoNameMessage) as Herr.
    { rewrite (determineFifoProps_named props name Hname).
      rewrite inferFifoQueue_steps, Hfifo, Hdedup.
      unfold nameForcesFifo. rewrite Hname, Hlate, Hends.
      now destruct (truthyStr name). }
    split; [exact Herr|]. exact (Queue_new_fails path props _ Herr).
Qed.

(** ** Encryption and the construct tree *)

Lemma keyChildren_external_key
    (path : string) (props : QueueProps) (k : IKey) :
  encryptionMasterKey props = Some k -> keyChildren path props = [].
Proof.
  intros Hk. unfold keyChildren, createsKey. rewrite Hk.
  now rewrite andb_false_r.
Qed.

(** C7.  When an external key is supplied and [encryption] is unset or
    is a mode other than [KMS], the effective mode becomes [KMS];
    [_determineEncryptionProps] returns the supplied key as the key
    handle, with its ARN as [kmsMasterKeyId], and adds no child (no key
    is created).  The constructor then succeeds whenever
    [validateProps] and [determineFifoProps] accept the properties; its
    only child is the [CfnQueue] fragment. *)
Theorem external_key_selects_customer_key
    (path : string) (props : QueueProps) (k : IKey)
    (st : list Construct) :
  encryptionMasterKey props = Some k ->
  encryption props <> Some KMS ->
  effectiveEncryption props = KMS
  /\ _determineEncryptionProps newKey path props st
     = (inr {| er_encryptionProps :=
                 {| kmsMasterKeyId := Some (keyArn k);
                    kmsDataKeyReusePeriodSeconds :=
                      option_map toSeconds (dataKeyReuse props) |};
               er_encryptionMasterKey := Some k |}, st)
  /\ (validateProps props = None ->
      forall fp, determineFifo props = inr fp ->
      exists q,
        newQueue path props
        = (inr q, [CfnQueue "Resource" (q_resource q)])
        /\ q_encryptionMasterKey q = Some k
        /\ cfn_kmsMasterKeyId (q_resource q) = Some (keyArn k)
        /\ keysCreated [CfnQueue "Resource" (q_resource q)] = 0%nat).
Proof.
  intros Hk _.
  pose proof (effectiveEncryption_external_key props k Hk) as Heff.
  assert (forall st',
             _determineEncryptionProps newKey path props st'
             = (inr {| er_encryptionProps :=
                         {| kmsMasterKeyId := Some (keyArn k);
                            kmsDataKeyReusePeriodSeconds :=
                              option_map toSeconds (dataKeyReuse props) |};
                       er_encryptionMasterKey := Some k |}, st')) as Henc.
  { intros st'. unfold _determineEncryptionProps.
    rewrite Heff, Hk. reflexivity. }
  split; [exact Heff|]. split; [apply Henc|].
  intros Hv fp Hf.
  destruct (Queue_new_ok path props fp Hv Hf)
    as (q & r & Hr & Hq & _ & Hkey & _ & _ & Hid & _).
  rewrite (keyChildren_external_key path props k Hk) in Hq, Hr.
  rewrite Henc in Hr. injection Hr as <-.
  exists q. split; [exact Hq|]. split; [exact Hkey|].
  split; [exact Hid|reflexivity].
Qed.

Lemma keysCreated_keyChildren (path : string) (props : QueueProps) :
  keysCreated (keyChildren path props)
  = if createsKey props then 1%nat else 0%nat.
Proof. unfold keyChildren. now destruct (createsKey props). Qed.

Lemma fragmentsCreated_keyChildren (path : string) (props : QueueProps) :
  fragmentsCreated (keyChildren path props) = 0%nat.
Proof. unfold keyChildren. now destruct (createsKey props). Qed.

(** C9 (amended).  The constructor either returns the queue, having
    created exactly one [CfnQueue] fragment after the children of the
    encryption derivation, or throws having created no fragment.  When
    [validateProps] throws nothing has been created.  When
    [determineFifoProps] throws, the encryption derivation has already
    run: the queue then has one created key as a child if the effective
    mode is [KMS] and no external key was supplied, and no child
    otherwise. *)
Theorem failed_resolution_exposes_no_fragment
    (path : string) (props : QueueProps) :
  match newQueue path props with
  | (inl e, children) =>
    fragmentsCreated children = 0%nat
    /\ ((validateProps props = Some e /\ children = [])
        \/ (validateProps props = None
            /\ determineFifo props = inl e
            /\ children = keyChildren path props
            /\ keysCreated children
               = if createsKey props then 1%nat else 0%nat))
  | (inr q, children) =>
    validateProps props = None
    /\ isOk (determineFifo props) = true
    /\ children = (keyChildren path props
                   ++ [CfnQueue "Resource" (q_resource q)])%list
    /\ fragmentsCreated children = 1%nat
  end.
Proof.
  destruct (validateProps props) as [e|] eqn:Hv.
  - rewrite (Queue_new_invalid path props e Hv). split; [reflexivity|].
    left. split; reflexivity.
  - destruct (determineFifo props) as [e|fp] eqn:Hf.
    + rewrite (Queue_new_fifo_error path props e Hv Hf).
      split; [apply fragmentsCreated_keyChildren|].
      right. repeat split. apply keysCreated_keyChildren.
    + destruct (Queue_new_ok path props fp Hv Hf) as (q & r & _ & -> & _).
      repeat split.
      unfold fragmentsCreated.
      rewrite filter_app, length_app.
      fold (fragmentsCreated (keyChildren path props)).
      now rewrite fragmentsCreated_keyChildren.
Qed.

End Environment.

(** ** Importing a queue *)

(** C8 (amended).  [fromQueueAttributes] fails only when the name has to
    be derived and [parseArn] throws.  Given only an ARN, the name is the
    resource segment of the parsed ARN, [fifo] is whether that name ends
    in ['.fifo'], and the URL is
    [https://sqs.<region>.<url-suffix>/<account>/<name>] with the region,
    URL suffix and account of the importing stack.  The example ARN
    yields the name ["myqueue"], [fifo = false] and, in a stack whose
    region is [us-east-1] and whose account is [123456789012], the URL
    [https://sqs.us-east-1.<suffix>/123456789012/myqueue]. *)
Theorem fromQueueArn_uses_stack_context :
  (forall parseArn stack attrs,
      isOk (fromQueueAttributes parseArn stack attrs)
      = match truthyValue (qa_queueName attrs) with
        | Some _ => true
        | None => isOk (parseArn (qa_queueArn attrs))
        end)
  /\ (forall parseArn stack arn,
         match parseArn arn with
         | inr c =>
           fromQueueArn parseArn stack arn
           = inr {| imp_queueArn := arn;
                    imp_queueUrl :=
                      "https://sqs." ++ region stack ++ "."
                        ++ urlSuffix stack ++ "/" ++ account stack
                        ++ "/" ++ resource c;
                    imp_queueName := resource c;
                    imp_encryptionMasterKey := None;
                    imp_fifo := endsWith (resource c) ".fifo";
                    imp_autoCreatePolicy := false |}
         | inl e => fromQueueArn parseArn stack arn = inl e
         end)
  /\ (forall stack,
         fromQueueArn parseArnModel stack exampleArn
         = inr {| imp_queueArn := exampleArn;
                  imp_queueUrl :=
                    "https://sqs." ++ region stack ++ "."
                      ++ urlSuffix stack ++ "/" ++ account stack
                      ++ "/myqueue";
                  imp_queueName := "myqueue";
                  imp_encryptionMasterKey := None;
                  imp_fifo := false;
                  imp_autoCreatePolicy := false |})
  /\ (forall suffix,
         fromQueueArn parseArnModel
           {| region := "us-east-1"; urlSuffix := suffix;
              account := "123456789012" |} exampleArn
         = inr {| imp_queueArn := exampleArn;
                  imp_queueUrl :=
                    "https://sqs.us-east-1." ++ suffix
                      ++ "/123456789012/myqueue";
                  imp_queueName := "myqueue";
                  imp_encryptionMasterKey := None;
                  imp_fifo := false;
                  imp_autoCreatePolicy := false |}).
Proof.
  split; [|split; [|split]].
  - intros parseArn stack attrs. unfold fromQueueAttributes.
    destruct (truthyValue (qa_queueName attrs)); [reflexivity|].
    now destruct (parseArn (qa_queueArn attrs)).
  - intros parseArn stack arn. unfold fromQueueArn, fromQueueAttributes.
    simpl. destruct (parseArn arn) as [e|c]; [reflexivity|].
    now destruct (endsWith (resource c) ".fifo").
  - intros stack. reflexivity.
  - intros suffix. reflexivity.
Qed.

(** C8 (counterexample).  In a stack deployed to [eu-west-1] under
    account [999999999999], importing the example ARN yields a URL in
    that region and account, not the [us-east-1] URL of the ARN. *)
Lemma fromQueueArn_url_ignores_arn_region :
  fromQueueArn parseArnModel
    {| region := "eu-west-1"; urlSuffix := "amazonaws.com";
       account := "999999999999" |} exampleArn
  = inr {| imp_queueArn := exampleArn;
           imp_queueUrl :=
             "https://sqs.eu-west-1.amazonaws.com/999999999999/myqueue";
           imp_queueName := "myqueue";
           imp_encryptionMasterKey := None;
           imp_fifo := false;
           imp_autoCreatePolicy := false |}
  /\ "https://sqs.eu-west-1.amazonaws.com/999999999999/myqueue"
     <> "https://sqs.us-east-1.amazonaws.com/123456789012/myqueue".
Proof. split; [reflexivity|discriminate]. Qed.

(** ** The theorems at concrete inputs *)

(** C1 at [{ queueName: 'orders.fifo', fifo: false }]. *)
Lemma fifo_flag_must_agree_with_name_witness :
  queueName (fifoSpec (Some "orders.fifo") (Some false) None)
  = Some "orders.fifo"
  /\ containsToken "orders.fifo" = false
  /\ determineFifoProps containsToken
       (fifoSpec (Some "orders.fifo") (Some false) None)
     = inl nonFifoNameMessage
  /\ isOk (fst (Queue_new containsToken acceptProps tokenKey "App/Orders"
                  (fifoSpec (Some "orders.fifo") (Some false) None)))
     = false.
Proof.
  split; [reflexivity|]. split; [reflexivity|].
  apply (fifo_flag_must_agree_with_name containsToken acceptProps tokenKey
           "App/Orders" (fifoSpec (Some "orders.fifo") (Some false) None)
           "orders.fifo");
    reflexivity.
Defined.

(** C2 at [{ queueName: 'orders.fifo', contentBasedDeduplication: true }]. *)
Lemma fifo_inferred_from_name_witness :
  queueName (fifoSpec (Some "orders.fifo") None (Some true))
  = Some "orders.fifo"
  /\ containsToken "orders.fifo" = false
  /\ endsWith "orders.fifo" ".fifo" = true
  /\ fifo (fifoSpec (Some "orders.fifo") None (Some true)) = None
  /\ determineFifoProps containsToken
       (fifoSpec (Some "orders.fifo") None (Some true))
     = inr {| fifoQueue := Some true;
              fp_contentBasedDeduplication := Some true |}
  /\ exists q children,
       Queue_new containsToken acceptProps tokenKey "App/Orders"
         (fifoSpec (Some "orders.fifo") None (Some true))
       = (inr q, children)
       /\ q_fifo q = true
       /\ cfn_fifoQueue (q_resource q) = Some true.
Proof.
  do 4 (split; [reflexivity|]).
  destruct (fifo_inferred_from_name containsToken acceptProps tokenKey
              "App/Orders" (fifoSpec (Some "orders.fifo") None (Some true))
              "orders.fifo" eq_refl eq_refl eq_refl eq_refl)
    as [Hfifo Hqueue].
  split; [exact Hfifo|exact (Hqueue eq_refl)].
Defined.

(** C3 (counterexample).  [{ contentBasedDeduplication: true }], with
    neither a name nor a [fifo] flag, meets the conditions of the claim,
    yet [determineFifoProps] returns with [fifoQueue] true and the
    constructor succeeds. *)
Lemma dedup_alone_resolves_as_fifo :
  contentBasedDeduplication (fifoSpec None None (Some true)) = Some true
  /\ fifo (fifoSpec None None (Some true)) = None
  /\ nameForcesFifo containsToken (fifoSpec None None (Some true)) = false
  /\ determineFifoProps containsToken (fifoSpec None None (Some true))
     = inr {| fifoQueue := Some true;
              fp_contentBasedDeduplication := Some true |}
  /\ isOk (fst (Queue_new containsToken acceptProps tokenKey "App/Jobs"
                  (fifoSpec None None (Some true))))
     = true.
Proof. repeat split. Qed.

(** C3 (amended) at deduplication with, in turn,
    [{ queueName: 'orders.fifo', fifo: false }], no name and no flag, and
    [{ queueName: 'jobs' }]. *)
Lemma dedup_infers_or_requires_fifo_witness :
  contentBasedDeduplication
    (fifoSpec (Some "orders.fifo") (Some false) (Some true))
  = Some true
  /\ isOk (fst (Queue_new containsToken acceptProps tokenKey "App/Orders"
                  (fifoSpec (Some "orders.fifo") (Some false) (Some true))))
     = false
  /\ (exists q children,
         Queue_new containsToken acceptProps tokenKey "App/Jobs"
           (fifoSpec None None (Some true))
         = (inr q, children)
         /\ q_fifo q = true
         /\ cfn_fifoQueue (q_resource q) = Some true
         /\ cfn_contentBasedDeduplication (q_resource q) = Some true)
  /\ containsToken "jobs" = false
  /\ determineFifoProps containsToken
       (fifoSpec (Some "jobs") None (Some true))
     = inl fifoNameMessage.
Proof.
  split; [reflexivity|]. split; [|split; [|split; [reflexivity|]]].
  - exact (proj2 (proj1 (dedup_infers_or_requires_fifo
             containsToken acceptProps tokenKey "App/Orders"
             (fifoSpec (Some "orders.fifo") (Some false) (Some true))
             eq_refl) eq_refl)).
  - exact (proj2 (proj1 (proj2 (dedup_infers_or_requires_fifo
             containsToken acceptProps tokenKey "App/Jobs"
             (fifoSpec None None (Some true))
             eq_refl)) eq_refl eq_refl) eq_refl).
  - exact (proj1 (proj2 (proj2 (dedup_infers_or_requires_fifo
             containsToken acceptProps tokenKey "App/Jobs"
             (fifoSpec (Some "jobs") None (Some true))
             eq_refl)) eq_refl "jobs" eq_refl eq_refl eq_refl)).
Defined.

(** C4 at [{ queueName: <token>, fifo: true }]. *)
Lemma unresolved_name_is_still_checked_witness :
  queueName (fifoSpec (Some placeholderName) (Some true) None)
  = Some placeholderName
  /\ containsToken placeholderName = true
  /\ determineFifoProps containsToken
       (fifoSpec (Some placeholderName) (Some true) None)
     = inl fifoNameMessage
  /\ isOk (fst (Queue_new containsToken acceptProps tokenKey "App/Late"
                  (fifoSpec (Some placeholderName) (Some true) None)))
     = false.
Proof.
  split; [reflexivity|]. split; [reflexivity|].
  apply (unresolved_name_is_still_checked containsToken acceptProps
           tokenKey "App/Late"
           (fifoSpec (Some placeholderName) (Some true) None)
           placeholderName);
    reflexivity.
Defined.

(** C7 at [{ encryption: UNENCRYPTED, encryptionMasterKey: key }]. *)
Lemma external_key_selects_customer_key_witness :
  encryptionMasterKey
    (withEncryption (Some UNENCRYPTED) (Some externalKey)
       (fifoSpec None None None))
  = Some externalKey
  /\ encryption
       (withEncryption (Some UNENCRYPTED) (Some externalKey)
          (fifoSpec None None None))
     <> Some KMS
  /\ effectiveEncryption
       (withEncryption (Some UNENCRYPTED) (Some externalKey)
          (fifoSpec None None None))
     = KMS
  /\ _determineEncryptionProps tokenKey "App/Secure"
       (withEncryption (Some UNENCRYPTED) (Some externalKey)
          (fifoSpec None None None)) []
     = (inr {| er_encryptionProps :=
                 {| kmsMasterKeyId := Some (keyArn externalKey);
                    kmsDataKeyReusePeriodSeconds := None |};
               er_encryptionMasterKey := Some externalKey |}, [])
  /\ exists q,
       Queue_new containsToken acceptProps tokenKey "App/Secure"
         (withEncryption (Some UNENCRYPTED) (Some externalKey)
            (fifoSpec None None None))
       = (inr q, [CfnQueue "Resource" (q_resource q)])
       /\ q_encryptionMasterKey q = Some externalKey
       /\ cfn_kmsMasterKeyId (q_resource q) = Some (keyArn externalKey)
       /\ keysCreated [CfnQueue "Resource" (q_resource q)] = 0%nat.
Proof.
  split; [reflexivity|].
  assert (encryption
            (withEncryption (Some UNENCRYPTED) (Some externalKey)
               (fifoSpec None None None))
          <> Some KMS) as Hmode by discriminate.
  split; [exact Hmode|].
  destruct (external_key_selects_customer_key containsToken acceptProps
              tokenKey "App/Secure"
              (withEncryption (Some UNENCRYPTED) (Some externalKey)
                 (fifoSpec None None None))
              externalKey [] eq_refl Hmode)
    as (Heff & Henc & Hqueue).
  split; [exact Heff|]. split; [exact Henc|].
  exact (Hqueue eq_refl _ eq_refl).
Defined.

(** C9 (counterexample).
    [{ queueName: 'orders.fifo', fifo: false, encryption: KMS }]: the
    constructor throws the name-mismatch error after a key was created
    beneath the queue. *)
Lemma failed_resolution_keeps_created_key :
  Queue_new containsToken acceptProps tokenKey "App/Orders"
    (withEncryption (Some KMS) None
       (fifoSpec (Some "orders.fifo") (Some false) None))
  = (inl nonFifoNameMessage, [KmsKey "Key" "Created by App/Orders"])
  /\ keysCreated [KmsKey "Key" "Created by App/Orders"] = 1%nat.
Proof. split; reflexivity. Qed.

End SqsSpec.

(* ================================================================== *)
(** * Further properties of the user-pool attributes *)

Module UserPoolAttrFacts.
Import Js UserPoolAttr UserPoolAttrSpec.

Lemma toString_inj (a b : Z) : toString a = toString b -> a = b.
Proof.
  intros H. apply (f_equal parseDecimal) in H.
  rewrite !parseDecimal_toString in H. now injection H.
Qed.

Lemma optToString_inj (x y : option Z) :
  optToString x = optToString y -> x = y.
Proof.
  destruct x as [a|], y as [b|]; simpl; intros H;
    try discriminate; [|reflexivity].
  injection H as H. now rewrite (toString_inj a b H).
Qed.


(** X1.  [NumberAttr.bind] returns [attrDataType] ["Number"]; it omits the
    constraints exactly when [min] and [max] are both falsy (unset or [0]),
    so a minimum of [0] alone is dropped; when the constraints are present
    they are the [numberAttributeConstraints] object holding both bounds. *)
Theorem NumberAttr_bind_constraints (this : NumberAttr) :
  attrDataType (bind this) = "Number"
  /\ (constraints (bind this) = None
      <-> falsyBound (min this) /\ falsyBound (max this))
  /\ match constraints (bind this) with
     | Some c =>
       c = Obj [("numberAttributeConstraints",
                 Obj [("minValue", optToString (min this));
                      ("maxValue", optToString (max this))])]
     | None => True
     end.
Proof.
  simpl. split; [reflexivity|].
  rewrite <- !truthyOptNum_false.
  destruct (truthyOptNum (min this)), (truthyOptNum (max this));
    simpl; intuition discriminate.
Qed.



(** X3.  [bind] loses nothing once it emits constraints: two [StringAttr]
    (or two [NumberAttr]) that bind to the same fragment, the constraints
    being present, have the same bounds. *)
Theorem bind_is_injective_when_constrained
    (s1 s2 : StringAttr) (n1 n2 : NumberAttr) :
  (constraints (bind s1) <> None -> bind s1 = bind s2 -> s1 = s2)
  /\ (constraints (bind n1) <> None -> bind n1 = bind n2 -> n1 = n2).
Proof.
  split; intros Hsome Heq; apply (f_equal constraints) in Heq;
    simpl in Hsome, Heq.
  - destruct s1 as [a1 b1], s2 as [a2 b2]. simpl in *.
    destruct (truthyOptNum a1 || truthyOptNum b1); [|congruence].
    destruct (truthyOptNum a2 || truthyOptNum b2); [|discriminate].
    injection Heq as Ha Hb.
    now rewrite (optToString_inj _ _ Ha), (optToString_inj _ _ Hb).
  - destruct n1 as [a1 b1], n2 as [a2 b2]. simpl in *.
    destruct (truthyOptNum a1 || truthyOptNum b1); [|congruence].
    destruct (truthyOptNum a2 || truthyOptNum b2); [|discriminate].
    injection Heq as Ha Hb.
    now rewrite (optToString_inj _ _ Ha), (optToString_inj _ _ Hb).
Qed.

(** X3 at [{ minLen: 1, maxLen: 8 }] and [{ min: 1, max: 8 }]. *)
Lemma bind_is_injective_when_constrained_witness :
  {| minLen := Some 1; maxLen := Some 8 |}
  = {| minLen := Some 1; maxLen := Some 8 |}
  /\ {| min := Some 1; max := Some 8 |} = {| min := Some 1; max := Some 8 |}.
Proof.
  destruct (bind_is_injective_when_constrained
              {| minLen := Some 1; maxLen := Some 8 |}
              {| minLen := Some 1; maxLen := Some 8 |}
              {| min := Some 1; max := Some 8 |}
              {| min := Some 1; max := Some 8 |}) as [Hs Hn].
  split; [apply Hs|apply Hn]; (discriminate || reflexivity).
Defined.

(** X4.  Distinct members of [StandardAttrs] have distinct string values. *)
Theorem StandardAttrs_values_are_distinct (a b : StandardAttrs) :
  a <> b -> StandardAttrs_value a <> StandardAttrs_value b.
Proof.
  intros Hne Heq. apply Hne.
  destruct a, b; try reflexivity; discriminate Heq.
Qed.

(** X4 at [TIMEZONE] and [PROFILE]. *)
Lemma StandardAttrs_values_are_distinct_witness :
  TIMEZONE <> PROFILE /\ "zoneinfo" <> "profile".
Proof.
  assert (TIMEZONE <> PROFILE) as Hne by discriminate.
  split; [exact Hne|].
  exact (StandardAttrs_values_are_distinct TIMEZONE PROFILE Hne).
Defined.

(** X5.  The [minLen] check of the [StringAttr] constructor comes first: a
    negative [minLen] is reported whatever [maxLen] is, and a [maxLen] above
    [2048] is reported only when [minLen] is unset or not negative. *)
Theorem StringAttr_new_reports_minLen_first (props : StringAttrProps) :
  (forall v, sp_minLen props = Some v -> v < 0 ->
             StringAttr_new props = inl (minLenMessage v))
  /\ (forall w, sp_maxLen props = Some w -> 2048 < w ->
                match sp_minLen props with
                | Some v => 0 <= v
                | None => True
                end ->
                StringAttr_new props = inl (maxLenMessage w)).
Proof.
  unfold StringAttr_new.
  pose proof (minLenRejected_spec props) as Hmin.
  pose proof (maxLenRejected_spec props) as Hmax.
  split.
  - intros v Hv Hneg. rewrite Hv in Hmin.
    destruct (minLenRejected props) as [v'|]; [|lia].
    destruct Hmin as [[= ->] _]. reflexivity.
  - intros w Hw Hbig Hok.
    destruct (minLenRejected props) as [v'|].
    + destruct Hmin as [Hv' Hneg]. rewrite Hv' in Hok. lia.
    + rewrite Hw in Hmax.
      destruct (maxLenRejected props) as [w'|]; [|lia].
      destruct Hmax as [[= ->] _]. reflexivity.
Qed.

(** X5 at [{ minLen: -1, maxLen: 3000 }] and [{ maxLen: 3000 }]. *)
Lemma StringAttr_new_reports_minLen_first_witness :
  StringAttr_new {| sp_minLen := Some (-1); sp_maxLen := Some 3000 |}
  = inl (minLenMessage (-1))
  /\ StringAttr_new {| sp_minLen := None; sp_maxLen := Some 3000 |}
     = inl (maxLenMessage 3000).
Proof.
  split.
  - apply (proj1 (StringAttr_new_reports_minLen_first
                    {| sp_minLen := Some (-1); sp_maxLen := Some 3000 |}));
      [reflexivity|lia].
  - apply (proj2 (StringAttr_new_reports_minLen_first
                    {| sp_minLen := None; sp_maxLen := Some 3000 |}));
      [reflexivity|lia|exact I].
Defined.

End UserPoolAttrFacts.

(* ================================================================== *)
(** * Further properties of the queue construct *)

Module SqsFacts.
Import Js Sqs SqsSpec.

Section Environment.

Variable isUnresolved : string -> bool.
Variable validateProps : QueueProps -> option Error.
Variable newKey : string -> string -> string -> IKey.

Abbreviation inferFifo := (inferFifoQueue isUnresolved).
Abbreviation determineFifo := (determineFifoProps isUnresolved).
Abbreviation newQueue := (Queue_new isUnresolved validateProps newKey).
Abbreviation determineEncryption := (_determineEncryptionProps newKey).

(** ** Encryption derivation *)

(** X6.  Without an external key, an unset or [UNENCRYPTED] mode yields
    empty encryption properties, no key handle and no new child; a
    [dataKeyReuse] given alongside is dropped. *)
Theorem unencrypted_drops_data_key_reuse
    (path : string) (props : QueueProps) (st : list Construct) :
  encryptionMasterKey props = None ->
  encryption props = None \/ encryption props = Some UNENCRYPTED ->
  determineEncryption path props st
  = (inr {| er_encryptionProps :=
              {| kmsMasterKeyId := None;
                 kmsDataKeyReusePeriodSeconds := None |};
            er_encryptionMasterKey := None |}, st).
Proof.
  intros Hk Hmode. unfold _determineEncryptionProps, effectiveEncryption.
  rewrite Hk. now destruct Hmode as [-> | ->].
Qed.

(** X7.  Without an external key, the [KMS_MANAGED] mode yields the fixed
    key id ['alias/aws/sqs'] and the reuse period in seconds when one is
    given; no key handle is returned and no child is created. *)
Theorem managed_key_uses_sqs_alias
    (path : string) (props : QueueProps) (st : list Construct) :
  encryptionMasterKey props = None ->
  encryption props = Some KMS_MANAGED ->
  determineEncryption path props st
  = (inr {| er_encryptionProps :=
              {| kmsMasterKeyId := Some "alias/aws/sqs";
                 kmsDataKeyReusePeriodSeconds :=
                   option_map toSeconds (dataKeyReuse props) |};
            er_encryptionMasterKey := None |}, st).
Proof.
  intros Hk Hmode. unfold _determineEncryptionProps, effectiveEncryption.
  now rewrite Hk, Hmode.
Qed.

Lemma keyChildren_created (path : string) (props : QueueProps) :
  encryption props = Some KMS -> encryptionMasterKey props = None ->
  keyChildren path props = [KmsKey "Key" ("Created by " ++ path)].
Proof.
  intros Hmode Hk. unfold keyChildren, createsKey, effectiveEncryption.
  now rewrite Hmode, Hk.
Qed.

(** X8.  [KMS] mode without an external key creates one key beneath the
    queue, with id ['Key'] and description ['Created by <path>']; that key
    is the handle returned and its ARN is [kmsMasterKeyId].  When the
    constructor then succeeds, the queue has two children, the key first
    and the [CfnQueue] second. *)
Theorem customer_key_is_created_when_missing
    (path : string) (props : QueueProps) (st : list Construct) :
  encryption props = Some KMS ->
  encryptionMasterKey props = None ->
  let created := newKey path "Key" ("Created by " ++ path) in
  determineEncryption path props st
  = (inr {| er_encryptionProps :=
              {| kmsMasterKeyId := Some (keyArn created);
                 kmsDataKeyReusePeriodSeconds :=
                   option_map toSeconds (dataKeyReuse props) |};
            er_encryptionMasterKey := Some created |},
     (st ++ [KmsKey "Key" ("Created by " ++ path)])%list)
  /\ (validateProps props = None ->
      forall fp, determineFifo props = inr fp ->
      exists q,
        newQueue path props
        = (inr q, [KmsKey "Key" ("Created by " ++ path);
                   CfnQueue "Resource" (q_resource q)])
        /\ q_encryptionMasterKey q = Some created
        /\ cfn_kmsMasterKeyId (q_resource q) = Some (keyArn created)).
Proof.
  intros Hmode Hk created.
  assert (forall st',
             determineEncryption path props st'
             = (inr {| er_encryptionProps :=
                         {| kmsMasterKeyId := Some (keyArn created);
                            kmsDataKeyReusePeriodSeconds :=
                              option_map toSeconds (dataKeyReuse props) |};
                       er_encryptionMasterKey := Some created |},
                (st' ++ [KmsKey "Key" ("Created by " ++ path)])%list))
    as Henc.
  { intros st'. unfold _determineEncryptionProps, effectiveEncryption.
    rewrite Hmode, Hk. reflexivity. }
  split; [apply Henc|].
  intros Hv fp Hf.
  destruct (Queue_new_ok isUnresolved validateProps newKey path props fp Hv Hf)
    as (q & r & Hr & Hq & _ & Hkey & _ & _ & Hid & _).
  rewrite (keyChildren_created path props Hmode Hk) in Hq, Hr.
  rewrite Henc in Hr. injection Hr as <-.
  exists q. split; [exact Hq|]. split; [exact Hkey|exact Hid].
Qed.

(** X9.  The constructor creates a key exactly when [encryption] is
    explicitly [KMS] and no external key is supplied; whatever its outcome,
    the number of keys beneath the queue afterwards is one if
    [validateProps] accepted the properties and a key had to be created,
    and zero otherwise. *)
Theorem key_is_created_iff_kms_without_key
    (path : string) (props : QueueProps) :
  (createsKey props = true
   <-> encryption props = Some KMS /\ encryptionMasterKey props = None)
  /\ keysCreated (snd (newQueue path props))
     = match validateProps props with
       | None => if createsKey props then 1%nat else 0%nat
       | Some _ => 0%nat
       end.
Proof.
  split.
  - unfold createsKey, effectiveEncryption.
    destruct (encryption props) as [[]|], (encryptionMasterKey props);
      simpl; split; try discriminate; try (intros [? ?]; discriminate);
      auto.
  - destruct (validateProps props) as [e|] eqn:Hv.
    + now rewrite (Queue_new_invalid isUnresolved validateProps newKey
                     path props e Hv).
    + destruct (determineFifo props) as [e|fp] eqn:Hf.
      * rewrite (Queue_new_fifo_error isUnresolved validateProps newKey
                   path props e Hv Hf).
        apply keysCreated_keyChildren.
      * destruct (Queue_new_ok isUnresolved validateProps newKey
                    path props fp Hv Hf) as (q & r & _ & -> & _).
        simpl snd. unfold keysCreated.
        rewrite filter_app, length_app. simpl.
        rewrite Nat.add_0_r. apply keysCreated_keyChildren.
Qed.

(** X10.  Whenever [_determineEncryptionProps] returns, its result is
    coherent: [kmsMasterKeyId] is absent exactly when the effective mode is
    [UNENCRYPTED], in which case neither a reuse period nor a key handle is
    returned; a returned key handle is always the key whose ARN is
    [kmsMasterKeyId]. *)
Theorem encryption_result_is_coherent
    (path : string) (props : QueueProps) (st st' : list Construct)
    (r : EncryptionResult) :
  determineEncryption path props st = (inr r, st') ->
  (kmsMasterKeyId (er_encryptionProps r) = None
   <-> effectiveEncryption props = UNENCRYPTED)
  /\ (kmsMasterKeyId (er_encryptionProps r) = None ->
      kmsDataKeyReusePeriodSeconds (er_encryptionProps r) = None
      /\ er_encryptionMasterKey r = None)
  /\ (forall k, er_encryptionMasterKey r = Some k ->
                kmsMasterKeyId (er_encryptionProps r) = Some (keyArn k)).
Proof.
  unfold _determineEncryptionProps.
  destruct (effectiveEncryption props); simpl.
  - intros [= <- _]. simpl. repeat split; auto; discriminate.
  - intros [= <- _]. simpl. repeat split; try discriminate.
  - destruct (encryptionMasterKey props) as [k|]; simpl;
      intros [= <- _]; simpl;
      (repeat split; try discriminate; now intros k' [= <-]).
Qed.

(** ** FIFO derivation *)

(** Inference only ever turns an unset flag into [true]. *)
Lemma inferFifoQueue_false (props : QueueProps) :
  inferFifo props = Some false -> fifo props = Some false.
Proof.
  rewrite inferFifoQueue_steps.
  destruct (fifo props) as [b|]; [now intros [= ->]|].
  destruct (nameForcesFifo isUnresolved props); [discriminate|].
  now destruct (truthyOptBool (contentBasedDeduplication props)).
Qed.

(** What a successful [determineFifoProps] tells about the properties. *)
Lemma determineFifoProps_ok_inv (props : QueueProps) (fp : FifoProps) :
  determineFifo props = inr fp ->
  fp = {| fifoQueue := inferFifo props;
          fp_contentBasedDeduplication := contentBasedDeduplication props |}
  /\ (forall name, queueName props = Some name ->
                   truthyOptBool (inferFifo props) = endsWith name ".fifo")
  /\ (truthyOptBool (contentBasedDeduplication props) = true ->
      truthyOptBool (inferFifo props) = true).
Proof.
  destruct (queueName props) as [name|] eqn:Hname.
  - rewrite (determineFifoProps_named isUnresolved props name Hname).
    cbv zeta.
    destruct (truthyOptBool (inferFifo props)) eqn:Hflag;
      destruct (endsWith name ".fifo") eqn:Hends; simpl; try discriminate.
    + rewrite andb_false_r. intros [= <-].
      split; [reflexivity|].
      split; [intros ? [= <-]; now rewrite Hends|reflexivity].
    + destruct (truthyOptBool (contentBasedDeduplication props));
        simpl; [discriminate|].
      intros [= <-].
      split; [reflexivity|].
      split; [intros ? [= <-]; now rewrite Hends|discriminate].
  - rewrite (determineFifoProps_unnamed isUnresolved props Hname).
    cbv zeta.
    destruct (truthyOptBool (contentBasedDeduplication props)),
             (truthyOptBool (inferFifo props)); simpl; try discriminate;
      intros [= <-]; (split; [reflexivity|]);
      (split; [discriminate|]); auto.
Qed.

(** X11.  What every successful [determineFifoProps] guarantees: the
    deduplication flag is passed through unchanged, and when truthy comes
    with [fifoQueue] true; for a named queue [fifoQueue] is truthy exactly
    when the name ends in ['.fifo']; an explicit [fifo] is returned as
    given; and [fifoQueue] is [false] only when [fifo] was explicitly
    [false]. *)
Theorem successful_fifo_props_are_consistent
    (props : QueueProps) (fp : FifoProps) :
  determineFifo props = inr fp ->
  fp_contentBasedDeduplication fp = contentBasedDeduplication props
  /\ (truthyOptBool (contentBasedDeduplication props) = true ->
      fifoQueue fp = Some true)
  /\ (forall name, queueName props = Some name ->
                   truthyOptBool (fifoQueue fp) = endsWith name ".fifo")
  /\ (forall b, fifo props = Some b -> fifoQueue fp = Some b)
  /\ (fifoQueue fp = Some false -> fifo props = Some false).
Proof.
  intros Hok.
  destruct (determineFifoProps_ok_inv props fp Hok) as (-> & Hname & Hdedup).
  simpl. split; [reflexivity|]. split; [|split; [exact Hname|split]].
  - intros Htrue. specialize (Hdedup Htrue).
    now destruct (inferFifo props) as [[]|].
  - intros b Hb. now rewrite inferFifoQueue_steps, Hb.
  - apply inferFifoQueue_false.
Qed.

(** X12.  A queue with [fifo] unset, no truthy deduplication flag and no
    name ending in ['.fifo'] resolves with [fifoQueue] left undefined, not
    [false]: the fragment omits [fifoQueue] while the queue object reports
    [fifo = false]. *)
Theorem standard_queue_leaves_fifoQueue_undefined
    (path : string) (props : QueueProps) :
  fifo props = None ->
  truthyOptBool (contentBasedDeduplication props) = false ->
  (forall name, queueName props = Some name ->
                endsWith name ".fifo" = false) ->
  determineFifo props
  = inr {| fifoQueue := None;
           fp_contentBasedDeduplication :=
             contentBasedDeduplication props |}
  /\ (validateProps props = None ->
      exists q children,
        newQueue path props = (inr q, children)
        /\ q_fifo q = false
        /\ cfn_fifoQueue (q_resource q) = None).
Proof.
  intros Hfifo Hdedup Hname.
  assert (inferFifo props = None) as Hinfer.
  { rewrite inferFifoQueue_steps, Hfifo, Hdedup. unfold nameForcesFifo.
    destruct (queueName props) as [name|]; [|reflexivity].
    rewrite (Hname name eq_refl). now rewrite andb_false_r. }
  assert (determineFifo props
          = inr {| fifoQueue := None;
                   fp_contentBasedDeduplication :=
                     contentBasedDeduplication props |}) as Hok.
  { destruct (queueName props) as [name|] eqn:Hn.
    - rewrite (determineFifoProps_named isUnresolved props name Hn).
      now rewrite Hinfer, (Hname name eq_refl), Hdedup.
    - rewrite (determineFifoProps_unnamed isUnresolved props Hn).
      now rewrite Hinfer, Hdedup. }
  split; [exact Hok|]. intros Hv.
  destruct (Queue_new_ok isUnresolved validateProps newKey path props _ Hv Hok)
    as (q & r & _ & Hq & Hqf & _ & Hcfn & _).
  exists q. eexists. split; [exact Hq|]. split; assumption.
Qed.

(** X13.  [determineFifoProps] succeeds exactly when, after inference, the
    flag agrees with the suffix of the name (if there is a name) and a
    truthy deduplication flag comes with a truthy [fifoQueue]. *)
Theorem determineFifoProps_succeeds_iff (props : QueueProps) :
  isOk (determineFifo props) = true
  <-> (forall name, queueName props = Some name ->
                    truthyOptBool (inferFifo props) = endsWith name ".fifo")
      /\ (truthyOptBool (contentBasedDeduplication props) = true ->
          truthyOptBool (inferFifo props) = true).
Proof.
  split.
  - destruct (determineFifo props) as [e|fp] eqn:Hok; [discriminate|].
    intros _. exact (proj2 (determineFifoProps_ok_inv props fp Hok)).
  - intros [Hname Hdedup].
    destruct (queueName props) as [name|] eqn:Hn.
    + rewrite (determineFifoProps_named isUnresolved props name Hn).
      cbv zeta. rewrite (Hname name eq_refl).
      destruct (endsWith name ".fifo") eqn:Hends; simpl.
      * rewrite andb_false_r. reflexivity.
      * destruct (truthyOptBool (contentBasedDeduplication props));
          [|reflexivity].
        specialize (Hdedup eq_refl).
        rewrite (Hname name eq_refl), Hends in Hdedup. discriminate.
    + rewrite (determineFifoProps_unnamed isUnresolved props Hn).
      cbv zeta.
      destruct (truthyOptBool (contentBasedDeduplication props));
        [|reflexivity].
      now rewrite (Hdedup eq_refl).
Qed.

(** ** The constructor *)

(** X14.  When the constructor succeeds, the fragment carries the maximum
    message size, the dead-letter settings and the deduplication flag
    unchanged, and each duration as its number of seconds; each of these
    left unset is unset in the fragment. *)
Theorem fragment_passes_settings_through
    (path : string) (props : QueueProps) (q : Queue)
    (children : list Construct) :
  newQueue path props = (inr q, children) ->
  cfn_maximumMessageSize (q_resource q) = maxMessageSizeBytes props
  /\ cfn_delaySeconds (q_resource q)
     = option_map toSeconds (deliveryDelay props)
  /\ cfn_messageRetentionPeriod (q_resource q)
     = option_map toSeconds (retentionPeriod props)
  /\ cfn_receiveMessageWaitTimeSeconds (q_resource q)
     = option_map toSeconds (receiveMessageWaitTime props)
  /\ cfn_visibilityTimeout (q_resource q)
     = option_map toSeconds (visibilityTimeout props)
  /\ cfn_redrivePolicy (q_resource q)
     = match deadLetterQueue props with
       | Some d => Some {| deadLetterTargetArn := dlq_queueArn d;
                           rp_maxReceiveCount := maxReceiveCount d |}
       | None => None
       end
  /\ cfn_contentBasedDeduplication (q_resource q)
     = contentBasedDeduplication props.
Proof.
  unfold Queue_new, Queue_constructor, bindC, liftR.
  destruct (validateProps props); [discriminate|].
  destruct (_determineEncryptionProps_total newKey path props [])
    as (r & -> & _).
  destruct (determineFifo props) as [e|fp] eqn:Hf; [discriminate|].
  destruct (determineFifoProps_ok_inv props fp Hf) as (-> & _).
  unfold addChild, ret. intros [= <- _]. simpl.
  repeat split.
Qed.

(** What a successful constructor tells about the properties. *)
Lemma Queue_new_ok_inv
    (path : string) (props : QueueProps) (q : Queue)
    (children : list Construct) :
  newQueue path props = (inr q, children) ->
  validateProps props = None
  /\ exists fp, determineFifo props = inr fp
                /\ q_fifo q = truthyOptBool (fifoQueue fp).
Proof.
  intros Hq.
  destruct (validateProps props) as [e|] eqn:Hv.
  - now rewrite (Queue_new_invalid isUnresolved validateProps newKey
                   path props e Hv) in Hq.
  - split; [reflexivity|].
    destruct (determineFifo props) as [e|fp] eqn:Hf.
    + now rewrite (Queue_new_fifo_error isUnresolved validateProps newKey
                     path props e Hv Hf) in Hq.
    + destruct (Queue_new_ok isUnresolved validateProps newKey
                  path props fp Hv Hf) as (q' & r & _ & Hq' & Hfifo & _).
      rewrite Hq' in Hq. injection Hq as <- _.
      exists fp. split; [reflexivity|exact Hfifo].
Qed.

End Environment.

(** X15.  The late-binding test can change the outcome of
    [determineFifoProps] only when [fifo] is unset, the deduplication flag
    is not truthy and the name ends in ['.fifo']: in every other case the
    result is the same whatever [Token.isUnresolved] answers. *)
Theorem token_test_matters_only_for_fifo_suffix
    (isUnresolved1 isUnresolved2 : string -> bool) (props : QueueProps) :
  fifo props <> None
  \/ truthyOptBool (contentBasedDeduplication props) = true
  \/ (forall name, queueName props = Some name ->
                   endsWith name ".fifo" = false) ->
  determineFifoProps isUnresolved1 props
  = determineFifoProps isUnresolved2 props.
Proof.
  intros Hcase.
  assert (inferFifoQueue isUnresolved1 props
          = inferFifoQueue isUnresolved2 props) as Hinfer.
  { rewrite !inferFifoQueue_steps.
    destruct (fifo props) as [b|]; [reflexivity|].
    destruct Hcase as [Hset|[Hdedup|Hname]].
    - now contradiction Hset.
    - rewrite Hdedup.
      now destruct (nameForcesFifo isUnresolved1 props),
                   (nameForcesFifo isUnresolved2 props).
    - unfold nameForcesFifo.
      destruct (queueName props) as [name|]; [|reflexivity].
      rewrite (Hname name eq_refl). now rewrite !andb_false_r. }
  unfold determineFifoProps. now rewrite Hinfer.
Qed.

(** ** Importing a queue *)

Lemma truthyValue_nonempty (s : option string) (v : string) :
  s = Some v -> v <> "" -> truthyValue s = Some v.
Proof. intros -> Hne. now destruct v. Qed.

Lemma truthyValue_absent (s : option string) :
  s = None \/ s = Some "" -> truthyValue s = None.
Proof. now intros [-> | ->]. Qed.

(** X16.  When a non-empty name is supplied, [fromQueueAttributes] never
    consults the ARN parser and cannot fail: the ARN is kept as given, the
    name and the FIFO flag come from the supplied name, a non-empty URL is
    used verbatim (otherwise it is derived from the stack and the supplied
    name), and a non-empty key ARN becomes the key handle. *)
Theorem import_with_name_cannot_fail
    (parseArn : string -> Result ArnComponents)
    (stack : Stack) (attrs : QueueAttributes) (name : string) :
  qa_queueName attrs = Some name ->
  name <> "" ->
  exists imported,
    fromQueueAttributes parseArn stack attrs = inr imported
    /\ imp_queueArn imported = qa_queueArn attrs
    /\ imp_queueName imported = name
    /\ imp_fifo imported = endsWith name ".fifo"
    /\ imp_autoCreatePolicy imported = false
    /\ (forall url, qa_queueUrl attrs = Some url -> url <> "" ->
                    imp_queueUrl imported = url)
    /\ (qa_queueUrl attrs = None ->
        imp_queueUrl imported
        = "https://sqs." ++ region stack ++ "." ++ urlSuffix stack
            ++ "/" ++ account stack ++ "/" ++ name)
    /\ (forall key, qa_keyArn attrs = Some key -> key <> "" ->
                    imp_encryptionMasterKey imported
                    = Some {| keyArn := key |})
    /\ (qa_keyArn attrs = None -> imp_encryptionMasterKey imported = None).
Proof.
  intros Hname Hne. unfold fromQueueAttributes.
  rewrite (truthyValue_nonempty _ name Hname Hne).
  eexists. split; [reflexivity|]. simpl.
  split; [reflexivity|]. split; [reflexivity|].
  split; [now destruct (endsWith name ".fifo")|].
  split; [reflexivity|].
  split; [|split; [|split]].
  - intros url Hurl Hu. now rewrite (truthyValue_nonempty _ url Hurl Hu).
  - now intros ->.
  - intros key Hkey Hk. now rewrite (truthyValue_nonempty _ key Hkey Hk).
  - now intros ->.
Qed.

(** X17.  An empty string counts as absent: when the name, the URL and the
    key ARN are each unset or empty, [fromQueueAttributes] gives what
    [fromQueueArn] gives for the ARN alone. *)
Theorem import_treats_empty_strings_as_absent
    (parseArn : string -> Result ArnComponents)
    (stack : Stack) (attrs : QueueAttributes) :
  qa_queueName attrs = None \/ qa_queueName attrs = Some "" ->
  qa_queueUrl attrs = None \/ qa_queueUrl attrs = Some "" ->
  qa_keyArn attrs = None \/ qa_keyArn attrs = Some "" ->
  fromQueueAttributes parseArn stack attrs
  = fromQueueArn parseArn stack (qa_queueArn attrs).
Proof.
  intros Hname Hurl Hkey. unfold fromQueueArn, fromQueueAttributes.
  rewrite (truthyValue_absent _ Hname), (truthyValue_absent _ Hurl),
    (truthyValue_absent _ Hkey).
  reflexivity.
Qed.

(** X18.  Creating and importing agree on the FIFO flag: when the
    constructor succeeds for a queue with a non-empty name, importing a
    queue by that same name yields the same [fifo] value as the created
    queue reports. *)
Theorem created_and_imported_fifo_agree
    (isUnresolved : string -> bool)
    (validateProps : QueueProps -> option Error)
    (newKey : string -> string -> string -> IKey)
    (parseArn : string -> Result ArnComponents)
    (path : string) (props : QueueProps) (q : Queue)
    (children : list Construct)
    (stack : Stack) (attrs : QueueAttributes) (name : string) :
  Queue_new isUnresolved validateProps newKey path props
  = (inr q, children) ->
  queueName props = Some name ->
  name <> "" ->
  qa_queueName attrs = Some name ->
  exists imported,
    fromQueueAttributes parseArn stack attrs = inr imported
    /\ imp_queueName imported = name
    /\ imp_fifo imported = q_fifo q.
Proof.
  intros Hq Hname Hne Hattr.
  destruct (Queue_new_ok_inv isUnresolved validateProps newKey
              path props q children Hq) as (_ & fp & Hf & ->).
  destruct (determineFifoProps_ok_inv isUnresolved props fp Hf)
    as (-> & Hsuffix & _).
  simpl. rewrite (Hsuffix name Hname).
  unfold fromQueueAttributes.
  rewrite (truthyValue_nonempty _ name Hattr Hne).
  eexists. split; [reflexivity|]. simpl.
  split; [reflexivity|]. now destruct (endsWith name ".fifo").
Qed.

(** ** The theorems at concrete inputs *)

(** X6 at [{ dataKeyReuse: 600 s }]. *)
Lemma unencrypted_drops_data_key_reuse_witness :
  encryptionMasterKey
    (withDataKeyReuse (Some {| toSeconds := 600 |}) (fifoSpec None None None))
  = None
  /\ _determineEncryptionProps tokenKey "App/Plain"
       (withDataKeyReuse (Some {| toSeconds := 600 |})
          (fifoSpec None None None)) []
     = (inr {| er_encryptionProps :=
                 {| kmsMasterKeyId := None;
                    kmsDataKeyReusePeriodSeconds := None |};
               er_encryptionMasterKey := None |}, []).
Proof.
  split; [reflexivity|].
  apply (unencrypted_drops_data_key_reuse tokenKey "App/Plain"
           (withDataKeyReuse (Some {| toSeconds := 600 |})
              (fifoSpec None None None)) []);
    [reflexivity|left; reflexivity].
Defined.

(** X7 at [{ encryption: KMS_MANAGED, dataKeyReuse: 600 s }]. *)
Lemma managed_key_uses_sqs_alias_witness :
  encryption
    (withDataKeyReuse (Some {| toSeconds := 600 |})
       (withEncryption (Some KMS_MANAGED) None (fifoSpec None None None)))
  = Some KMS_MANAGED
  /\ _determineEncryptionProps tokenKey "App/Managed"
       (withDataKeyReuse (Some {| toSeconds := 600 |})
          (withEncryption (Some KMS_MANAGED) None (fifoSpec None None None)))
       []
     = (inr {| er_encryptionProps :=
                 {| kmsMasterKeyId := Some "alias/aws/sqs";
                    kmsDataKeyReusePeriodSeconds := Some 600 |};
               er_encryptionMasterKey := None |}, []).
Proof.
  split; [reflexivity|].
  apply (managed_key_uses_sqs_alias tokenKey "App/Managed"
           (withDataKeyReuse (Some {| toSeconds := 600 |})
              (withEncryption (Some KMS_MANAGED) None
                 (fifoSpec None None None))) []);
    reflexivity.
Defined.

(** X8 at [{ encryption: KMS }]. *)
Lemma customer_key_is_created_when_missing_witness :
  encryption (withEncryption (Some KMS) None (fifoSpec None None None))
  = Some KMS
  /\ encryptionMasterKey
       (withEncryption (Some KMS) None (fifoSpec None None None))
     = None
  /\ exists q,
       Queue_new containsToken acceptProps tokenKey "App/Secure"
         (withEncryption (Some KMS) None (fifoSpec None None None))
       = (inr q, [KmsKey "Key" "Created by App/Secure";
                  CfnQueue "Resource" (q_resource q)])
       /\ q_encryptionMasterKey q
          = Some (tokenKey "App/Secure" "Key" "Created by App/Secure")
       /\ cfn_kmsMasterKeyId (q_resource q)
          = Some "${Token[App/Secure/Key.Arn]}".
Proof.
  split; [reflexivity|]. split; [reflexivity|].
  exact (proj2 (customer_key_is_created_when_missing
                  containsToken acceptProps tokenKey "App/Secure"
                  (withEncryption (Some KMS) None (fifoSpec None None None))
                  [] eq_refl eq_refl)
               eq_refl _ eq_refl).
Defined.

(** X11 at [{ queueName: 'orders.fifo', contentBasedDeduplication: true }]. *)
Lemma successful_fifo_props_are_consistent_witness :
  determineFifoProps containsToken
    (fifoSpec (Some "orders.fifo") None (Some true))
  = inr {| fifoQueue := Some true;
           fp_contentBasedDeduplication := Some true |}
  /\ (forall name, Some "orders.fifo" = Some name ->
                   true = endsWith name ".fifo").
Proof.
  split; [reflexivity|].
  exact (proj1 (proj2 (proj2 (successful_fifo_props_are_consistent
           containsToken (fifoSpec (Some "orders.fifo") None (Some true))
           {| fifoQueue := Some true;
              fp_contentBasedDeduplication := Some true |}
           eq_refl)))).
Defined.

(** X12 at [{ queueName: 'jobs' }]. *)
Lemma standard_queue_leaves_fifoQueue_undefined_witness :
  fifo (fifoSpec (Some "jobs") None None) = None
  /\ endsWith "jobs" ".fifo" = false
  /\ determineFifoProps containsToken (fifoSpec (Some "jobs") None None)
     = inr {| fifoQueue := None; fp_contentBasedDeduplication := None |}
  /\ exists q children,
       Queue_new containsToken acceptProps tokenKey "App/Jobs"
         (fifoSpec (Some "jobs") None None)
       = (inr q, children)
       /\ q_fifo q = false
       /\ cfn_fifoQueue (q_resource q) = None.
Proof.
  split; [reflexivity|]. split; [reflexivity|].
  assert (forall name,
             queueName (fifoSpec (Some "jobs") None None) = Some name ->
             endsWith name ".fifo" = false) as Hname.
  { intros name [= <-]. reflexivity. }
  destruct (standard_queue_leaves_fifoQueue_undefined
              containsToken acceptProps tokenKey "App/Jobs"
              (fifoSpec (Some "jobs") None None) eq_refl eq_refl Hname)
    as [Hfifo Hqueue].
  split; [exact Hfifo|exact (Hqueue eq_refl)].
Defined.

(** X14 at a queue with every delivery setting and a dead-letter queue. *)
Lemma fragment_passes_settings_through_witness :
  exists q children,
    Queue_new containsToken acceptProps tokenKey "App/Jobs" tunedProps
    = (inr q, children)
    /\ cfn_maximumMessageSize (q_resource q) = Some 1024
    /\ cfn_delaySeconds (q_resource q) = Some 5
    /\ cfn_messageRetentionPeriod (q_resource q) = Some 345600
    /\ cfn_receiveMessageWaitTimeSeconds (q_resource q) = Some 20
    /\ cfn_visibilityTimeout (q_resource q) = Some 30
    /\ cfn_redrivePolicy (q_resource q)
       = Some {| deadLetterTargetArn :=
                   "arn:aws:sqs:us-east-1:123456789012:dead";
                 rp_maxReceiveCount := 3 |}
    /\ cfn_contentBasedDeduplication (q_resource q) = None.
Proof.
  destruct (Queue_new containsToken acceptProps tokenKey "App/Jobs"
              tunedProps) as [[e|q] children] eqn:Hq;
    [vm_compute in Hq; discriminate Hq|].
  exists q, children. split; [reflexivity|].
  pose proof (fragment_passes_settings_through
                containsToken acceptProps tokenKey "App/Jobs" tunedProps
                q children Hq) as Hpass.
  exact Hpass.
Defined.

(** X15 at a late-bound name ending in ['.fifo'] with deduplication on. *)
Lemma token_test_matters_only_for_fifo_suffix_witness :
  truthyOptBool
    (contentBasedDeduplication
       (fifoSpec (Some placeholderFifoName) None (Some true)))
  = true
  /\ determineFifoProps containsToken
       (fifoSpec (Some placeholderFifoName) None (Some true))
     = determineFifoProps neverUnresolved
         (fifoSpec (Some placeholderFifoName) None (Some true)).
Proof.
  split; [reflexivity|].
  apply (token_test_matters_only_for_fifo_suffix
           containsToken neverUnresolved
           (fifoSpec (Some placeholderFifoName) None (Some true))).
  right. left. reflexivity.
Defined.

(** X16 at a supplied name with an ARN that does not parse. *)
Lemma import_with_name_cannot_fail_witness :
  isOk (parseArnModel "not-an-arn") = false
  /\ exists imported,
       fromQueueAttributes parseArnModel
         {| region := "eu-west-1"; urlSuffix := "amazonaws.com";
            account := "999999999999" |}
         {| qa_queueArn := "not-an-arn"; qa_queueUrl := None;
            qa_queueName := Some "imported.fifo"; qa_keyArn := None |}
       = inr imported
       /\ imp_queueArn imported = "not-an-arn"
       /\ imp_queueName imported = "imported.fifo"
       /\ imp_fifo imported = true.
Proof.
  split; [reflexivity|].
  assert ("imported.fifo" <> "") as Hne by discriminate.
  destruct (import_with_name_cannot_fail parseArnModel
              {| region := "eu-west-1"; urlSuffix := "amazonaws.com";
                 account := "999999999999" |}
              {| qa_queueArn := "not-an-arn"; qa_queueUrl := None;
                 qa_queueName := Some "imported.fifo"; qa_keyArn := None |}
              "imported.fifo" eq_refl Hne)
    as (imported & Hok & Harn & Hname & Hfifo & _).
  exists imported. repeat split; assumption.
Defined.

(** X17 at attributes whose optional strings are all empty. *)
Lemma import_treats_empty_strings_as_absent_witness :
  fromQueueAttributes parseArnModel
    {| region := "us-east-1"; urlSuffix := "amazonaws.com";
       account := "123456789012" |}
    {| qa_queueArn := exampleArn; qa_queueUrl := Some "";
       qa_queueName := Some ""; qa_keyArn := Some "" |}
  = fromQueueArn parseArnModel
      {| region := "us-east-1"; urlSuffix := "amazonaws.com";
         account := "123456789012" |}
      exampleArn.
Proof.
  apply (import_treats_empty_strings_as_absent parseArnModel
           {| region := "us-east-1"; urlSuffix := "amazonaws.com";
              account := "123456789012" |}
           {| qa_queueArn := exampleArn; qa_queueUrl := Some "";
              qa_queueName := Some ""; qa_keyArn := Some "" |});
    right; reflexivity.
Defined.

(** X18 at [{ queueName: 'orders.fifo' }], created and then imported by
    name. *)
Lemma created_and_imported_fifo_agree_witness :
  exists q children imported,
    Queue_new containsToken acceptProps tokenKey "App/Orders"
      (fifoSpec (Some "orders.fifo") None None)
    = (inr q, children)
    /\ fromQueueAttributes parseArnModel
         {| region := "us-east-1"; urlSuffix := "amazonaws.com";
            account := "123456789012" |}
         {| qa_queueArn := exampleArn; qa_queueUrl := None;
            qa_queueName := Some "orders.fifo"; qa_keyArn := None |}
       = inr imported
    /\ imp_queueName imported = "orders.fifo"
    /\ imp_fifo imported = q_fifo q.
Proof.
  assert ("orders.fifo" <> "") as Hne by discriminate.
  destruct (Queue_new containsToken acceptProps tokenKey "App/Orders"
              (fifoSpec (Some "orders.fifo") None None))
    as [[e|q] children] eqn:Hq;
    [vm_compute in Hq; discriminate Hq|].
  exists q, children.
  destruct (created_and_imported_fifo_agree
              containsToken acceptProps tokenKey parseArnModel "App/Orders"
              (fifoSpec (Some "orders.fifo") None None) q children
              {| region := "us-east-1"; urlSuffix := "amazonaws.com";
                 account := "123456789012" |}
              {| qa_queueArn := exampleArn; qa_queueUrl := None;
                 qa_queueName := Some "orders.fifo"; qa_keyArn := None |}
              "orders.fifo" Hq eq_refl Hne eq_refl)
    as (imported & Hok & Hname & Hfifo).
  exists imported. split; [reflexivity|].
  split; [exact Hok|]. split; [exact Hname|exact Hfifo].
Defined.

(** X10 at [{ encryption: KMS, dataKeyReuse: 600 s }]. *)
Lemma encryption_result_is_coherent_witness :
  _determineEncryptionProps tokenKey "App/Secure"
    (withDataKeyReuse (Some {| toSeconds := 600 |})
       (withEncryption (Some KMS) None (fifoSpec None None None))) []
  = (inr {| er_encryptionProps :=
              {| kmsMasterKeyId := Some "${Token[App/Secure/Key.Arn]}";
                 kmsDataKeyReusePeriodSeconds := Some 600 |};
            er_encryptionMasterKey :=
              Some (tokenKey "App/Secure" "Key" "Created by App/Secure") |},
     [KmsKey "Key" "Created by App/Secure"])
  /\ forall k,
       Some (tokenKey "App/Secure" "Key" "Created by App/Secure") = Some k ->
       Some "${Token[App/Secure/Key.Arn]}" = Some (keyArn k).
Proof.
  split; [reflexivity|].
  exact (proj2 (proj2 (encryption_result_is_coherent
           tokenKey "App/Secure"
           (withDataKeyReuse (Some {| toSeconds := 600 |})
              (withEncryption (Some KMS) None (fifoSpec None None None)))
           [] _ _ eq_refl))).
Defined.

End SqsFacts.
